(** * Holder statistics of an ERC-20 token: [src/utils/fetch/token_stats.ts]

    A shallow embedding of [fetchMarketCap], [fetchHolders], [calculateStats]
    and [getTokenStats], and the properties of the holder-statistics engine
    that the specification states about them.

    Conventions of the embedding.
    - A JavaScript [number] is read in two ways.  The statements about the
      structure of the scan and of the report (the windows that are queried,
      the events that are applied, ranks, groups, printed strings) read it as
      an exact rational ([Q]), and state equalities between numbers with
      [==].  The statements that depend on rounding (the sum of the ledger,
      the total supply, the totals in USD) read it as an IEEE-754 binary64
      value: module [IEEE] embeds [fetchHolders] a second time over
      [spec_float].
    - A [Promise] is run sequentially; a rejected promise or a thrown
      exception is the [Throw] case of [Result], and every [try]/[catch] of
      the source is a [match] on it.
    - The chain provider, the contract object and the HTTP client are an
      environment of oracles ([Env]); the provider answers a log query by
      the number of queries made before it and by the block window.
    - [Map<string, number>] keeps its keys in insertion order, which
      [Array.from(holders.entries())] exposes: it is an association list. *)

From Stdlib Require Import ZArith QArith Qround Qabs List String Ascii Bool Lia.
From Stdlib Require Import DecimalString Lqa SpecFloat.
From Equations Require Import Equations.
Import ListNotations.

Local Open Scope string_scope.
Local Open Scope Z_scope.
Local Open Scope Q_scope.

(** ** Exceptions *)

Inductive Error : Type :=
  | RateLimited (retryAfter : option Z)   (* HTTP 429, with its Retry-After hint *)
  | Failure (message : string).

Inductive Result (A : Type) : Type :=
  | Ok (a : A)
  | Throw (e : Error).

Arguments Ok {A} a.
Arguments Throw {A} e.

Definition bind {A B : Type} (r : Result A) (k : A -> Result B) : Result B :=
  match r with
  | Ok a => k a
  | Throw e => Throw e
  end.

Notation "x <- r ;; k" := (bind r (fun x => k))
  (at level 61, r at next level, right associativity).

(** ** Numbers *)

(** [a > b] on numbers. *)
Definition Qgtb (a b : Q) : bool := negb (Qle_bool a b).

(** [Math.floor] and [Math.round] (halves go up). *)
Definition Math_floor (x : Q) : Z := Qfloor x.
Definition Math_round (x : Q) : Z := Qfloor (x + (1 # 2)).

Definition decimal (n : Z) : string :=
  NilZero.string_of_uint (N.to_uint (Z.to_N n)).

Definition two_digits (n : Z) : string :=
  if (n <? 10)%Z then String.append "0" (decimal n) else decimal n.

(** Hundredths nearest to [|x|], the larger one on a tie
    (Number.prototype.toFixed, step 10.a). *)
Definition hundredths (x : Q) : Z := Qfloor (Qabs x * 100 + (1 # 2)).

Definition showFixed2 (negative : bool) (n : Z) : string :=
  String.append (if negative then "-" else "")
    (String.append (decimal (n / 100))
       (String.append "." (two_digits (n mod 100)))).

(** [x.toFixed(2)], for |x| < 10^21. *)
Definition toFixed2 (x : Q) : string :=
  showFixed2 (Qgtb 0 x) (hundredths x).

(** ** The ledger: [Map<string, number>] *)

Definition Ledger : Type := list (string * Q).

Fixpoint has (k : string) (m : Ledger) : bool :=
  match m with
  | [] => false
  | (k', _) :: m' => if String.eqb k k' then true else has k m'
  end.

Fixpoint get (k : string) (m : Ledger) : option Q :=
  match m with
  | [] => None
  | (k', v) :: m' => if String.eqb k k' then Some v else get k m'
  end.

(** [set] keeps the position of a key that is present and appends a new one. *)
Fixpoint set (k : string) (v : Q) (m : Ledger) : Ledger :=
  match m with
  | [] => [(k, v)]
  | (k', v') :: m' =>
      if String.eqb k k' then (k, v) :: m' else (k', v') :: set k v m'
  end.

(** [holders.get(k) || 0] *)
Definition getOrZero (k : string) (m : Ledger) : Q :=
  match get k m with
  | Some v => if Qeq_bool v 0 then 0 else v
  | None => 0
  end.

(** ** Transfer events *)

(** An entry of the array [queryFilter] resolves to.  [Log] has no [args];
    an [EventLog] has them, each possibly missing. *)
Inductive Event : Type :=
  | Log (transactionHash : string)
  | EventLog (from to : option string) (value : option Z)
             (transactionHash : string).

(** Truthiness of a string and of a bigint. *)
Definition truthyString (s : option string) : option string :=
  match s with
  | Some s' => if String.eqb s' "" then None else Some s'
  | None => None
  end.

Definition truthyValue (v : option Z) : option Z :=
  match v with
  | Some z => if (z =? 0)%Z then None else Some z
  | None => None
  end.

(** [ethers.formatUnits(value, decimals)] read back by [parseFloat]:
    [value / 10^decimals].  ethers prints the value as a fixed-point number
    of 512 bits: it rejects more than 80 decimals and a value that does not
    fit, and with a negative [decimals] it prints no digit after the point. *)
Definition formatUnits (value : Z) (decimals : Z) : Result Q :=
  if (80 <? decimals)%Z then Throw (Failure "invalid FixedNumber decimals")
  else if (value <? - 2 ^ 511)%Z || (2 ^ 511 <=? value)%Z
  then Throw (Failure "overflow")
  else Ok (inject_Z value / inject_Z (10 ^ Z.max decimals 0)).

(** Lines 174-178. *)
Definition transfer (from to : string) (value : Q) (holders : Ledger) : Ledger :=
  let h1 := if has from holders then holders else set from 0 holders in
  let h2 := if has to h1 then h1 else set to 0 h1 in
  let h3 := set from (getOrZero from h2 - value) h2 in
  set to (getOrZero to h3 + value) h3.

(** The body of [for (const event of events)], lines 155-182. *)
Definition applyEvent (decimals : Z) (holders : Ledger) (event : Event) : Ledger :=
  match event with
  | Log _ => holders                               (* no args: skipped *)
  | EventLog from to value _ =>
      match truthyString from, truthyString to, truthyValue value with
      | Some f, Some t, Some v =>
          match formatUnits v decimals with
          | Ok value' => transfer f t value' holders
          | Throw _ => holders                     (* parse error: skipped *)
          end
      | _, _, _ => holders                         (* malformed: skipped *)
      end
  end.

Definition replay (decimals : Z) (events : list Event) (holders : Ledger) : Ledger :=
  fold_left (applyEvent decimals) events holders.

(** ** Arrays *)

(** Stable sort by decreasing key: [xs.sort((a, b) => key(b) - key(a))]. *)
Section Sort.
Context {A : Type} (key : A -> Q).

Fixpoint insertDesc (x : A) (l : list A) : list A :=
  match l with
  | [] => [x]
  | y :: l' => if Qgtb (key y) (key x) then y :: insertDesc x l' else x :: l
  end.

Definition sortDesc (l : list A) : list A := fold_right insertDesc [] l.
End Sort.

(** [Array.prototype.slice(start, end)]. *)
Definition sliceIndex (len i : Z) : Z :=
  if (i <? 0)%Z then Z.max (len + i) 0 else Z.min i len.

Definition slice {A : Type} (s e : Z) (l : list A) : list A :=
  let len := Z.of_nat (List.length l) in
  let k := sliceIndex len s in
  let f := sliceIndex len e in
  firstn (Z.to_nat (f - k)) (skipn (Z.to_nat k) l).

(** [xs[i].field]: reading a field of [undefined] is a TypeError. *)
Definition index {A : Type} (l : list A) (i : Z) : Result A :=
  if (i <? 0)%Z then Throw (Failure "TypeError")
  else match nth_error l (Z.to_nat i) with
       | Some a => Ok a
       | None => Throw (Failure "TypeError")
       end.

(** ** Records of the module *)

Module Holder.
Record t : Type := { holder : string; balance : Q }.
End Holder.

Inductive HolderType : Type := wallet | contract | unknown.

Module TopHolder.
Record t : Type := { address : string; balance : Q; type : HolderType }.
End TopHolder.

(** [string | number] *)
Inductive StringOrNumber : Type :=
  | Num (n : Q)
  | Str (s : string).

Module HoldersStats.
Record t : Type := {
  totalSupply : Q;
  topHoldersProportion : StringOrNumber;
  topHolders : list TopHolder.t;
  filteredHolders : list (string * Q)
}.
End HoldersStats.

Module GroupStat.
Record t : Type := {
  percentage : string;
  walletsCount : Z;
  walletsHoldingPercentage : Q;
  cumulativeBalance : string
}.
End GroupStat.

Module Stats.
Record t : Type := {
  totalWallets : Z;
  averageBalance : string;
  medianBalance : string;
  groupStats : list GroupStat.t
}.
End Stats.

Module TokenStats.
Record t : Type := {
  totalSupply : Q;
  marketCap : option Q;
  topHoldersProportion : StringOrNumber;
  topHolders : list TopHolder.t
}.
End TokenStats.

Module TokenStatsResponse.
Record t : Type := { tokenStats : TokenStats.t; stats : Stats.t }.
End TokenStatsResponse.

(** ** The environment *)

(** What the scan does to the outside, in order. *)
Inductive Action : Type :=
  | Sleep (ms : Z)
  | QueryFilter (fromBlock toBlock : Z).

Definition Trace : Type := list Action.

Record Env : Type := {
  INFURA_KEY : option string;
  JsonRpcProvider : string -> Result unit;
  Contract : string -> Result unit;
  contract_totalSupply : Result Z;
  provider_getBlockNumber : Result Z;
  (* Transfer logs of a block window, given what the scan did before *)
  contract_queryFilter : Trace -> Z -> Z -> Result (list Event);
  provider_getCode : string -> Result string;
  (* status and [data.market_data.market_cap.usd] of the response *)
  axios_get : string -> Result (Z * option Q)
}.

(** ** [fetchMarketCap] *)

Definition fetchMarketCap (env : Env) (tokenSymbol : string) : option Q :=
  let url := String.append "https://api.coingecko.com/api/v3/coins/" tokenSymbol in
  match axios_get env url with
  | Ok (status, usd) => if (status =? 200)%Z then usd else None
  | Throw _ => None
  end.

(** ** [fetchHolders] *)

Record Scan : Type := { holders : Ledger; trace : Trace }.

(** One turn of the loop over block windows, lines 146-187. *)
Definition scanWindow (env : Env) (decimals : Z) (batchSize : positive)
    (endBlock fromBlock : Z) (st : Scan) : Scan :=
  let toBlock := Z.min (fromBlock + Z.pos batchSize - 1) endBlock in
  let before := (trace st ++ [Sleep 500])%list in
  let after := (before ++ [QueryFilter fromBlock toBlock])%list in
  match contract_queryFilter env before fromBlock toBlock with
  | Ok events =>
      {| holders := replay decimals events (holders st); trace := after |}
  | Throw _ =>                                     (* logged, then [continue] *)
      {| holders := holders st; trace := after |}
  end.

(** [for (let fromBlock = ...; fromBlock <= endBlock; fromBlock += batchSize)] *)
Equations? scanLoop (env : Env) (decimals : Z) (batchSize : positive)
    (endBlock fromBlock : Z) (st : Scan) : Scan
    by wf (Z.to_nat (endBlock - fromBlock + 1)) lt :=
  scanLoop env decimals batchSize endBlock fromBlock st
    with Z_le_gt_dec fromBlock endBlock => {
    | left _ => scanLoop env decimals batchSize endBlock
                  (fromBlock + Z.pos batchSize)
                  (scanWindow env decimals batchSize endBlock fromBlock st);
    | right _ => st }.
Proof. lia. Qed.

Definition scanLogs (env : Env) (decimals : Z) (batchSize : positive)
    (startBlock endBlock : Z) : Scan :=
  scanLoop env decimals batchSize endBlock startBlock
    {| holders := []; trace := [] |}.

Definition minBalanceThreshold : Q := 1 # 100.

(** Lines 192-194. *)
Definition filterHolders (holders : Ledger) : list (string * Q) :=
  sortDesc snd (filter (fun e => Qgtb (snd e) minBalanceThreshold) holders).

(** Lines 198-207. *)
Definition classify (env : Env) (e : string * Q) : TopHolder.t :=
  match provider_getCode env (fst e) with
  | Ok code =>
      {| TopHolder.address := fst e; TopHolder.balance := snd e;
         TopHolder.type := if String.eqb code "0x" then wallet else contract |}
  | Throw _ =>
      {| TopHolder.address := fst e; TopHolder.balance := snd e;
         TopHolder.type := unknown |}
  end.

Definition totalTopHoldersBalance (topHolders : list TopHolder.t) : Q :=
  fold_left (fun sum holder => sum + TopHolder.balance holder) topHolders 0.

(** Line 212. *)
Definition proportion (totalSupply top : Q) : Q :=
  if Qgtb totalSupply 0 then (top / totalSupply) * 100 else 0.

(** Lines 190-229: the report made of the final ledger. *)
Definition holdersStats (env : Env) (totalSupply : Q) (holders : Ledger)
    : HoldersStats.t :=
  let filteredHolders := filterHolders holders in
  let topHolders := map (classify env) (slice 0 10 filteredHolders) in
  let topHoldersProportion :=
    proportion totalSupply (totalTopHoldersBalance topHolders) in
  if (Z.of_nat (List.length filteredHolders) =? 0)%Z then
    {| HoldersStats.totalSupply := totalSupply;
       HoldersStats.topHoldersProportion := Num 0;
       HoldersStats.topHolders := [];
       HoldersStats.filteredHolders := [] |}
  else
    {| HoldersStats.totalSupply := totalSupply;
       HoldersStats.topHoldersProportion := Str (toFixed2 topHoldersProportion);
       HoldersStats.topHolders := topHolders;
       HoldersStats.filteredHolders := filteredHolders |}.

(** Lines 102-111. *)
Definition initProvider (env : Env) : Result unit :=
  match truthyString (INFURA_KEY env) with
  | None => Throw (Failure "Infura key not provided")
  | Some key =>
      JsonRpcProvider env (String.append "https://mainnet.infura.io/v3/" key)
  end.

(** Lines 124-131. *)
Definition fetchTotalSupply (env : Env) (decimals : Z) : Result Q :=
  supply <- contract_totalSupply env ;;
  units <- formatUnits supply decimals ;;
  Ok (inject_Z (Math_round units)).

(** [fetchHolders] with the window size as a parameter. *)
Definition fetchHoldersBy (batchSize : positive) (env : Env)
    (tokenAddress : string) (startBlock decimals : Z) : option HoldersStats.t :=
  match initProvider env with
  | Throw _ => None
  | Ok _ =>
  match Contract env tokenAddress with
  | Throw _ => None
  | Ok _ =>
  match fetchTotalSupply env decimals with
  | Throw _ => None
  | Ok totalSupply =>
  match provider_getBlockNumber env with
  | Throw _ => None
  | Ok endBlock =>
      let scan := scanLogs env decimals batchSize startBlock endBlock in
      Some (holdersStats env totalSupply (holders scan))
  end end end end.

Definition batchSize : positive := 100000.

Definition fetchHolders : Env -> string -> Z -> Z -> option HoldersStats.t :=
  fetchHoldersBy batchSize.

(** ** [calculateStats] *)

Module WalletGroup.
Record t : Type := { percentage : Z; rangeStart : Z; rangeEnd : Z }.
End WalletGroup.

Definition walletGroups : list WalletGroup.t :=
  [ {| WalletGroup.percentage := 10; WalletGroup.rangeStart := 0;
       WalletGroup.rangeEnd := 10 |};
    {| WalletGroup.percentage := 25; WalletGroup.rangeStart := 10;
       WalletGroup.rangeEnd := 25 |};
    {| WalletGroup.percentage := 50; WalletGroup.rangeStart := 25;
       WalletGroup.rangeEnd := 50 |};
    {| WalletGroup.percentage := 80; WalletGroup.rangeStart := 50;
       WalletGroup.rangeEnd := 80 |} ].

(** [Math.floor((range / 100) * totalWallets)].  Of the four quotients, 0.25
    and 0.5 are exact doubles and 0.1 and 0.8 round to doubles above 1/10
    and 8/10, so for an array length the floor of the product in doubles is
    the floor of the exact product. *)
Definition rangeIndex (range totalWallets : Z) : Z :=
  Math_floor ((inject_Z range / 100) * inject_Z totalWallets).

Definition sumBalances (holdersArray : list Holder.t) : Q :=
  fold_left (fun total h => total + Holder.balance h) holdersArray 0.

(** The holders of a group, line 253, in the sorted array. *)
Definition walletsInRange (sorted : list Holder.t) (g : WalletGroup.t)
    : list Holder.t :=
  let totalWallets := Z.of_nat (List.length sorted) in
  slice (rangeIndex (WalletGroup.rangeStart g) totalWallets)
        (rangeIndex (WalletGroup.rangeEnd g) totalWallets) sorted.

(** Lines 250-264. *)
Definition groupStat (sorted : list Holder.t) (totalTokens : Q)
    (g : WalletGroup.t) : GroupStat.t :=
  let inRange := walletsInRange sorted g in
  let cumulativeBalance := sumBalances inRange in
  {| GroupStat.percentage :=
       String.append (decimal (WalletGroup.rangeStart g))
         (String.append "-"
            (String.append (decimal (WalletGroup.rangeEnd g)) "%"));
     GroupStat.walletsCount := Z.of_nat (List.length inRange);
     GroupStat.walletsHoldingPercentage :=
       if Qgtb totalTokens 0 then (cumulativeBalance / totalTokens) * 100
       else 0;
     GroupStat.cumulativeBalance := toFixed2 cumulativeBalance |}.

(** Lines 270-278. *)
Definition median (sorted : list Holder.t) : Result Q :=
  let totalWallets := Z.of_nat (List.length sorted) in
  let middleIndex := Math_floor (inject_Z totalWallets / 2) in
  if (totalWallets =? 0)%Z then Ok 0
  else if (totalWallets mod 2 =? 0)%Z then
    lo <- index sorted (middleIndex - 1) ;;
    hi <- index sorted middleIndex ;;
    Ok ((Holder.balance lo + Holder.balance hi) / 2)
  else
    mid <- index sorted middleIndex ;;
    Ok (Holder.balance mid).

Definition calculateStats (holdersArray : list Holder.t) : Result Stats.t :=
  let totalTokens := sumBalances holdersArray in
  let sorted := sortDesc Holder.balance holdersArray in
  let totalWallets := Z.of_nat (List.length sorted) in
  let groupStats := map (groupStat sorted totalTokens) walletGroups in
  let averageBalance :=
    if (0 <? totalWallets)%Z then totalTokens / inject_Z totalWallets else 0 in
  medianBalance <- median sorted ;;
  Ok {| Stats.totalWallets := totalWallets;
        Stats.averageBalance := toFixed2 averageBalance;
        Stats.medianBalance := toFixed2 medianBalance;
        Stats.groupStats := groupStats |}.

(** ** [getTokenStats] *)

(** Lines 302-322: the response made of the holders' statistics. *)
Definition assemble (env : Env) (tokenSymbol : string)
    (holdersStats : HoldersStats.t) : Result (option TokenStatsResponse.t) :=
  let holdersArray :=
    map (fun e => {| Holder.holder := fst e; Holder.balance := snd e |})
        (HoldersStats.filteredHolders holdersStats) in
  let marketCap := fetchMarketCap env tokenSymbol in
  stats <- calculateStats holdersArray ;;
  Ok (Some
    {| TokenStatsResponse.tokenStats :=
         {| TokenStats.totalSupply := HoldersStats.totalSupply holdersStats;
            TokenStats.marketCap := marketCap;
            TokenStats.topHoldersProportion :=
              HoldersStats.topHoldersProportion holdersStats;
            TokenStats.topHolders := HoldersStats.topHolders holdersStats |};
       TokenStatsResponse.stats := stats |}).

(** The [try] block, lines 296-322. *)
Definition getTokenStatsBody (batchSize : positive) (env : Env)
    (tokenSymbol tokenAddress : string) (startBlock decimals : Z)
    : Result (option TokenStatsResponse.t) :=
  match fetchHoldersBy batchSize env tokenAddress startBlock decimals with
  | None => Ok None
  | Some holdersStats => assemble env tokenSymbol holdersStats
  end.

(** The [catch] of [getTokenStats]. *)
Definition catchNull {A : Type} (body : Result (option A)) : Result (option A) :=
  match body with
  | Ok response => Ok response
  | Throw _ => Ok None
  end.

(** The promise [getTokenStats] returns: resolved ([Ok]) with a response or
    with [null], or rejected ([Throw]). *)
Definition getTokenStatsBy (batchSize : positive) (env : Env)
    (tokenSymbol tokenAddress : string) (startBlock decimals : Z)
    : Result (option TokenStatsResponse.t) :=
  catchNull
    (getTokenStatsBody batchSize env tokenSymbol tokenAddress startBlock decimals).

Definition getTokenStats
    : Env -> string -> string -> Z -> Z -> Result (option TokenStatsResponse.t) :=
  getTokenStatsBy batchSize.

(** ** A chain and the providers that serve it *)

(** The Transfer logs of each block. *)
Definition Chain : Type := Z -> list Event.

Fixpoint blocksFrom (fromBlock : Z) (n : nat) : list Z :=
  match n with
  | O => []
  | S n' => fromBlock :: blocksFrom (fromBlock + 1) n'
  end.

Definition blocks (fromBlock toBlock : Z) : list Z :=
  blocksFrom fromBlock (Z.to_nat (toBlock - fromBlock + 1)).

Definition logsIn (chain : Chain) (fromBlock toBlock : Z) : list Event :=
  flat_map chain (blocks fromBlock toBlock).

(** A provider that answers every log query, and with the logs of the chain. *)
Definition Faithful (env : Env) (chain : Chain) : Prop :=
  forall before fromBlock toBlock,
    contract_queryFilter env before fromBlock toBlock
    = Ok (logsIn chain fromBlock toBlock).

(** The fixture of the end-to-end scenario. *)
Module Fixture.
Definition zero : string := "0x0000000000000000000000000000000000000000".
Definition A : string := "0xA".
Definition B : string := "0xB".
Definition C : string := "0xC".

Definition chain : Chain := fun block =>
  if (block =? 0)%Z then [EventLog (Some zero) (Some A) (Some 1000%Z) "0x01"]
  else if (block =? 1)%Z then [EventLog (Some A) (Some B) (Some 400%Z) "0x02"]
  else if (block =? 2)%Z then [EventLog (Some B) (Some C) (Some 100%Z) "0x03"]
  else [].

Definition env : Env :=
  {| INFURA_KEY := Some "key";
     JsonRpcProvider := fun _ => Ok tt;
     Contract := fun _ => Ok tt;
     contract_totalSupply := Ok 1000%Z;
     provider_getBlockNumber := Ok 2%Z;
     contract_queryFilter := fun _ fromBlock toBlock =>
       Ok (logsIn chain fromBlock toBlock);
     provider_getCode := fun _ => Ok "0x";
     axios_get := fun _ => Ok (200%Z, None) |}.
End Fixture.


(** ** The windows of a scan *)

(** The block windows [fromBlock, toBlock] the loop of [fetchHolders] goes
    through, in its order. *)
Fixpoint windowsFrom (batchSize : positive) (endBlock fromBlock : Z) (n : nat)
    : list (Z * Z) :=
  match n with
  | O => []
  | S n' =>
      (fromBlock, Z.min (fromBlock + Z.pos batchSize - 1) endBlock)
      :: windowsFrom batchSize endBlock (fromBlock + Z.pos batchSize) n'
  end.

Definition windowCount (batchSize : positive) (startBlock endBlock : Z) : nat :=
  if (startBlock <=? endBlock)%Z
  then Z.to_nat ((endBlock - startBlock) / Z.pos batchSize + 1)
  else O.

Definition windows (batchSize : positive) (startBlock endBlock : Z)
    : list (Z * Z) :=
  windowsFrom batchSize endBlock startBlock
    (windowCount batchSize startBlock endBlock).

(** What the scan does for one window. *)
Definition request (w : Z * Z) : Trace :=
  [Sleep 500; QueryFilter (fst w) (snd w)].

(** The events of the windows whose query succeeded, for a scan that did
    [tr] before them. *)
Fixpoint fetched (env : Env) (ws : list (Z * Z)) (tr : Trace) : list Event :=
  match ws with
  | [] => []
  | w :: ws' =>
      let before := (tr ++ [Sleep 500])%list in
      (match contract_queryFilter env before (fst w) (snd w) with
       | Ok events => events
       | Throw _ => []
       end
       ++ fetched env ws' (before ++ [QueryFilter (fst w) (snd w)]))%list
  end.

(** ** Providers that fail *)

(** A provider that answers every log query with HTTP 429. *)
Module Limited.
Definition env : Env :=
  {| INFURA_KEY := Some "key";
     JsonRpcProvider := fun _ => Ok tt;
     Contract := fun _ => Ok tt;
     contract_totalSupply := Ok 1000%Z;
     provider_getBlockNumber := Ok 150000%Z;
     contract_queryFilter := fun _ _ _ => Throw (RateLimited (Some 1%Z));
     provider_getCode := fun _ => Ok "0x";
     axios_get := fun _ => Ok (200%Z, None) |}.
End Limited.

(** A chain of 100001 blocks: 1000 minted to A in block 0, 400 sent on to B
    in block 100000; the provider fails on the window that starts at block
    100000 and answers the other one. *)
Module Outage.
Definition chain : Chain := fun block =>
  if (block =? 0)%Z then
    [EventLog (Some Fixture.zero) (Some Fixture.A) (Some 1000%Z) "0x01"]
  else if (block =? 100000)%Z then
    [EventLog (Some Fixture.A) (Some Fixture.B) (Some 400%Z) "0x02"]
  else [].

Definition env : Env :=
  {| INFURA_KEY := Some "key";
     JsonRpcProvider := fun _ => Ok tt;
     Contract := fun _ => Ok tt;
     contract_totalSupply := Ok 1000%Z;
     provider_getBlockNumber := Ok 100000%Z;
     contract_queryFilter := fun _ fromBlock toBlock =>
       if (fromBlock =? 100000)%Z then Throw (Failure "timeout")
       else Ok (logsIn chain fromBlock toBlock);
     provider_getCode := fun _ => Ok "0x";
     axios_get := fun _ => Ok (200%Z, None) |}.
End Outage.

(** A provider answers a log query with the logs of the chain, or fails. *)
Definition Serves (env : Env) (chain : Chain) : Prop :=
  forall before fromBlock toBlock,
    contract_queryFilter env before fromBlock toBlock
    = Ok (logsIn chain fromBlock toBlock)
    \/ exists err,
         contract_queryFilter env before fromBlock toBlock = Throw err.

(** ** The statements that the code does not meet *)

(** A scan whose log queries all end rate-limited returns no report. *)
Definition RateLimitAborts (env : Env) (tokenSymbol tokenAddress : string)
    (startBlock decimals : Z) : Prop :=
  forall endBlock,
    provider_getBlockNumber env = Ok endBlock ->
    (startBlock <= endBlock)%Z ->
    (forall before fromBlock toBlock, exists hint,
       contract_queryFilter env before fromBlock toBlock
       = Throw (RateLimited hint)) ->
    forall response,
      getTokenStats env tokenSymbol tokenAddress startBlock decimals
      <> Ok (Some response).

(** The outcome is [null] or the report of every event of
    [startBlock..endBlock]. *)
Definition CompleteOrNull (chain : Chain) (env : Env)
    (tokenSymbol tokenAddress : string) (startBlock decimals : Z) : Prop :=
  getTokenStats env tokenSymbol tokenAddress startBlock decimals = Ok None
  \/ exists totalSupply endBlock,
       fetchTotalSupply env decimals = Ok totalSupply /\
       provider_getBlockNumber env = Ok endBlock /\
       getTokenStats env tokenSymbol tokenAddress startBlock decimals
       = assemble env tokenSymbol
           (holdersStats env totalSupply
              (replay decimals (logsIn chain startBlock endBlock) [])).

(** A token of three decimals of which 0.005 was minted to A: dust. *)
Module Dust.
Definition chain : Chain := fun block =>
  if (block =? 0)%Z then
    [EventLog (Some Fixture.zero) (Some Fixture.A) (Some 5%Z) "0x01"]
  else [].

Definition env : Env :=
  {| INFURA_KEY := Some "key";
     JsonRpcProvider := fun _ => Ok tt;
     Contract := fun _ => Ok tt;
     contract_totalSupply := Ok 5%Z;
     provider_getBlockNumber := Ok 10%Z;
     contract_queryFilter := fun _ fromBlock toBlock =>
       Ok (logsIn chain fromBlock toBlock);
     provider_getCode := fun _ => Ok "0x";
     axios_get := fun _ => Ok (200%Z, Some 42) |}.
End Dust.



(** ** The concentration of the top holders *)




(** A token of one decimal with a supply of 1.4, all of it minted to A. *)
Module Fractional.
Definition chain : Chain := fun block =>
  if (block =? 0)%Z then
    [EventLog (Some Fixture.zero) (Some Fixture.A) (Some 14%Z) "0x01"]
  else [].

Definition env : Env :=
  {| INFURA_KEY := Some "key";
     JsonRpcProvider := fun _ => Ok tt;
     Contract := fun _ => Ok tt;
     contract_totalSupply := Ok 14%Z;
     provider_getBlockNumber := Ok 0%Z;
     contract_queryFilter := fun _ fromBlock toBlock =>
       Ok (logsIn chain fromBlock toBlock);
     provider_getCode := fun _ => Ok "0x";
     axios_get := fun _ => Ok (200%Z, None) |}.
End Fractional.

(** ** The groups of a rank *)

(** Whether the range of a group holds a rank, for a number of wallets. *)
Definition inGroup (totalWallets rank : Z) (g : WalletGroup.t) : bool :=
  (rangeIndex (WalletGroup.rangeStart g) totalWallets <=? rank)%Z
  && (rank <? rangeIndex (WalletGroup.rangeEnd g) totalWallets)%Z.

Definition groupsOf (totalWallets rank : Z) : list WalletGroup.t :=
  filter (inGroup totalWallets rank) walletGroups.

(** Every rank of the sorted holders is in exactly one group. *)
Definition BucketsPartition (holdersArray : list Holder.t) : Prop :=
  let totalWallets := Z.of_nat (List.length holdersArray) in
  forall rank,
    (0 <= rank < totalWallets)%Z ->
    List.length (groupsOf totalWallets rank) = 1%nat.

(** The number of holders between the two bounds of a group. *)
Definition groupWidth (totalWallets : Z) (g : WalletGroup.t) : Z :=
  (WalletGroup.rangeEnd g * totalWallets / 100
   - WalletGroup.rangeStart g * totalWallets / 100)%Z.

(** * [fetchHolders] over binary64

    The sum of the balances of the ledger and the rounding of the total
    supply depend on the rounding of JavaScript's numbers.  For the
    statements about them [fetchHolders] is embedded a second time, with a
    [number] that is an IEEE-754 binary64 value: [spec_float] with the
    operations of [SpecFloat] at precision 53 (round to nearest, ties to
    even).  The environment, the events and the windows are those above. *)

Module IEEE.

Definition number : Type := spec_float.

Definition prec : Z := 53.
Definition emax : Z := 1024.

Definition zero : number := S754_zero false.

(** [a + b], [a - b], [a * b], [a / b] and [a > b] on numbers. *)
Definition add : number -> number -> number := SFadd prec emax.
Definition sub : number -> number -> number := SFsub prec emax.
Definition mul : number -> number -> number := SFmul prec emax.
Definition div : number -> number -> number := SFdiv prec emax.
Definition gt (a b : number) : bool := SFltb b a.

Definition isFinite (x : number) : bool :=
  match x with
  | S754_zero _ | S754_finite _ _ _ => true
  | S754_infinity _ | S754_nan => false
  end.

(** The rational a finite number stands for; 0 for the others. *)
Definition real (x : number) : Q :=
  match x with
  | S754_finite s m e =>
      let v := if (0 <=? e)%Z then inject_Z (Z.pos m * 2 ^ e)
               else inject_Z (Z.pos m) / inject_Z (2 ^ (- e)) in
      if s then - v else v
  | _ => 0
  end.

(** The number nearest to the quotient [n / d] of two integers, [0 < d]. *)
Definition nearest (n d : Z) : number :=
  match n with
  | Z0 => zero
  | Zpos _ =>
      let '(q, e, l) := SFdiv_core_binary prec emax n 0 d 0 in
      binary_round_aux prec emax false q e l
  | Zneg p =>
      let '(q, e, l) := SFdiv_core_binary prec emax (Zpos p) 0 d 0 in
      binary_round_aux prec emax true q e l
  end.

(** The number value of an integer. *)
Definition ofZ (n : Z) : number := binary_normalize prec emax n 0 false.

Definition hundred : number := ofZ 100.

(** [x || 0]: 0, -0 and NaN are falsy. *)
Definition orZero (x : number) : number :=
  match x with
  | S754_zero _ | S754_nan => zero
  | _ => x
  end.

(** A decimal string, such as ["1.4"]: [unscaled / 10^scale]. *)
Record Decimal : Type := { unscaled : Z; scale : Z }.

(** [ethers.formatUnits(value, decimals)]: the value as a fixed-point number
    of 512 bits with [decimals] decimals, printed in full.  More than 80
    decimals are rejected, and so is a value that does not fit; with a
    negative [decimals] no digit follows the point. *)
Definition formatUnits (value decimals : Z) : Result Decimal :=
  if (80 <? decimals)%Z then Throw (Failure "invalid FixedNumber decimals")
  else if (value <? - 2 ^ 511)%Z || (2 ^ 511 <=? value)%Z
  then Throw (Failure "overflow")
  else Ok {| unscaled := value; scale := Z.max decimals 0 |}.

(** [parseFloat] of a decimal string: the number nearest to its value. *)
Definition parseFloat (s : Decimal) : number :=
  nearest (unscaled s) (10 ^ scale s).

(** [Math.round]: the integer nearest to [x], the larger one on a tie; the
    sign of [x] is kept when that integer is 0. *)
Definition Math_round (x : number) : number :=
  match x with
  | S754_finite s _ _ =>
      let n := Qfloor (real x + (1 # 2)) in
      if (n =? 0)%Z then S754_zero s else ofZ n
  | _ => x
  end.

(** [x.toFixed(2)], for |x| < 10^21. *)
Definition toFixed2 (x : number) : string :=
  match x with
  | S754_nan => "NaN"
  | S754_infinity s => if s then "-Infinity" else "Infinity"
  | _ => toFixed2 (real x)
  end.

(** ** The ledger *)

Definition Ledger : Type := list (string * number).

Fixpoint has (k : string) (m : Ledger) : bool :=
  match m with
  | [] => false
  | (k', _) :: m' => if String.eqb k k' then true else has k m'
  end.

Fixpoint get (k : string) (m : Ledger) : option number :=
  match m with
  | [] => None
  | (k', v) :: m' => if String.eqb k k' then Some v else get k m'
  end.

Fixpoint set (k : string) (v : number) (m : Ledger) : Ledger :=
  match m with
  | [] => [(k, v)]
  | (k', v') :: m' =>
      if String.eqb k k' then (k, v) :: m' else (k', v') :: set k v m'
  end.

(** [holders.get(k) || 0] *)
Definition getOrZero (k : string) (m : Ledger) : number :=
  match get k m with
  | Some v => orZero v
  | None => zero
  end.

(** Lines 174-178. *)
Definition transfer (from to : string) (value : number) (holders : Ledger)
    : Ledger :=
  let h1 := if has from holders then holders else set from zero holders in
  let h2 := if has to h1 then h1 else set to zero h1 in
  let h3 := set from (sub (getOrZero from h2) value) h2 in
  set to (add (getOrZero to h3) value) h3.

(** The body of [for (const event of events)], lines 155-182. *)
Definition applyEvent (decimals : Z) (holders : Ledger) (event : Event)
    : Ledger :=
  match event with
  | Log _ => holders
  | EventLog from to value _ =>
      match truthyString from, truthyString to, truthyValue value with
      | Some f, Some t, Some v =>
          match formatUnits v decimals with
          | Ok units => transfer f t (parseFloat units) holders
          | Throw _ => holders
          end
      | _, _, _ => holders
      end
  end.

Definition replay (decimals : Z) (events : list Event) (holders : Ledger)
    : Ledger :=
  fold_left (applyEvent decimals) events holders.

(** ** The scan *)

Record Scan : Type := { holders : Ledger; trace : Trace }.

(** One turn of the loop over block windows, lines 146-187. *)
Definition scanWindow (env : Env) (decimals : Z) (batchSize : positive)
    (endBlock fromBlock : Z) (st : Scan) : Scan :=
  let toBlock := Z.min (fromBlock + Z.pos batchSize - 1) endBlock in
  let before := (trace st ++ [Sleep 500])%list in
  let after := (before ++ [QueryFilter fromBlock toBlock])%list in
  match contract_queryFilter env before fromBlock toBlock with
  | Ok events =>
      {| holders := replay decimals events (holders st); trace := after |}
  | Throw _ =>
      {| holders := holders st; trace := after |}
  end.

Equations? scanLoop (env : Env) (decimals : Z) (batchSize : positive)
    (endBlock fromBlock : Z) (st : Scan) : Scan
    by wf (Z.to_nat (endBlock - fromBlock + 1)) lt :=
  scanLoop env decimals batchSize endBlock fromBlock st
    with Z_le_gt_dec fromBlock endBlock => {
    | left _ => scanLoop env decimals batchSize endBlock
                  (fromBlock + Z.pos batchSize)
                  (scanWindow env decimals batchSize endBlock fromBlock st);
    | right _ => st }.
Proof. lia. Qed.

Definition scanLogs (env : Env) (decimals : Z) (batchSize : positive)
    (startBlock endBlock : Z) : Scan :=
  scanLoop env decimals batchSize endBlock startBlock
    {| holders := []; trace := [] |}.

(** ** The report *)

(** [0.01] *)
Definition minBalanceThreshold : number := nearest 1 100.

(** [xs.sort((a, b) => b[1] - a[1])]: [y] goes before [x] when
    [y[1] - x[1] > 0]. *)
Fixpoint insertDesc (x : string * number) (l : list (string * number))
    : list (string * number) :=
  match l with
  | [] => [x]
  | y :: l' =>
      if gt (sub (snd y) (snd x)) zero then y :: insertDesc x l' else x :: l
  end.

Definition sortDesc (l : list (string * number)) : list (string * number) :=
  fold_right insertDesc [] l.

(** Lines 192-194. *)
Definition filterHolders (holders : Ledger) : list (string * number) :=
  sortDesc (filter (fun e => gt (snd e) minBalanceThreshold) holders).

Module TopHolder.
Record t : Type := { address : string; balance : number; type : HolderType }.
End TopHolder.

(** [string | number] *)
Inductive StringOrNumber : Type :=
  | Num (n : number)
  | Str (s : string).

Module HoldersStats.
Record t : Type := {
  totalSupply : number;
  topHoldersProportion : StringOrNumber;
  topHolders : list TopHolder.t;
  filteredHolders : list (string * number)
}.
End HoldersStats.

(** Lines 198-207. *)
Definition classify (env : Env) (e : string * number) : TopHolder.t :=
  match provider_getCode env (fst e) with
  | Ok code =>
      {| TopHolder.address := fst e; TopHolder.balance := snd e;
         TopHolder.type := if String.eqb code "0x" then wallet else contract |}
  | Throw _ =>
      {| TopHolder.address := fst e; TopHolder.balance := snd e;
         TopHolder.type := unknown |}
  end.

(** Line 211. *)
Definition totalTopHoldersBalance (topHolders : list TopHolder.t) : number :=
  fold_left (fun sum holder => add sum (TopHolder.balance holder))
    topHolders zero.

(** Lines 190-229. *)
Definition holdersStats (env : Env) (totalSupply : number) (holders : Ledger)
    : HoldersStats.t :=
  let filteredHolders := filterHolders holders in
  let topHolders := map (classify env) (slice 0 10 filteredHolders) in
  let totalTopHoldersBalance := totalTopHoldersBalance topHolders in
  let topHoldersProportion :=
    if gt totalSupply zero
    then mul (div totalTopHoldersBalance totalSupply) hundred
    else zero in
  if (Z.of_nat (List.length filteredHolders) =? 0)%Z then
    {| HoldersStats.totalSupply := totalSupply;
       HoldersStats.topHoldersProportion := Num zero;
       HoldersStats.topHolders := [];
       HoldersStats.filteredHolders := [] |}
  else
    {| HoldersStats.totalSupply := totalSupply;
       HoldersStats.topHoldersProportion := Str (toFixed2 topHoldersProportion);
       HoldersStats.topHolders := topHolders;
       HoldersStats.filteredHolders := filteredHolders |}.

(** Lines 124-131. *)
Definition fetchTotalSupply (env : Env) (decimals : Z) : Result number :=
  supply <- contract_totalSupply env ;;
  units <- formatUnits supply decimals ;;
  Ok (Math_round (parseFloat units)).

Definition fetchHoldersBy (batchSize : positive) (env : Env)
    (tokenAddress : string) (startBlock decimals : Z) : option HoldersStats.t :=
  match initProvider env with
  | Throw _ => None
  | Ok _ =>
  match Contract env tokenAddress with
  | Throw _ => None
  | Ok _ =>
  match fetchTotalSupply env decimals with
  | Throw _ => None
  | Ok totalSupply =>
  match provider_getBlockNumber env with
  | Throw _ => None
  | Ok endBlock =>
      let scan := scanLogs env decimals batchSize startBlock endBlock in
      Some (holdersStats env totalSupply (holders scan))
  end end end end.

Definition fetchHolders : Env -> string -> Z -> Z -> option HoldersStats.t :=
  fetchHoldersBy batchSize.

(** ** The sum of the ledger and its rounding errors *)

(** The sum of the balances, as a rational. *)
Definition total (m : Ledger) : Q :=
  fold_right (fun e s => real (snd e) + s) 0 m.

(** What the subtraction and the addition of lines 177-178 add to the sum of
    the ledger: the results they store minus the exact ones. *)
Definition transferDrift (from to : string) (value : number) (holders : Ledger)
    : Q :=
  let h1 := if has from holders then holders else set from zero holders in
  let h2 := if has to h1 then h1 else set to zero h1 in
  let a := getOrZero from h2 in
  let h3 := set from (sub a value) h2 in
  let b := getOrZero to h3 in
  (real (sub a value) - (real a - real value))
  + (real (add b value) - (real b + real value)).

Definition eventDrift (decimals : Z) (holders : Ledger) (event : Event) : Q :=
  match event with
  | Log _ => 0
  | EventLog from to value _ =>
      match truthyString from, truthyString to, truthyValue value with
      | Some f, Some t, Some v =>
          match formatUnits v decimals with
          | Ok units => transferDrift f t (parseFloat units) holders
          | Throw _ => 0
          end
      | _, _, _ => 0
      end
  end.

Fixpoint drift (decimals : Z) (events : list Event) (holders : Ledger) : Q :=
  match events with
  | [] => 0
  | event :: events' =>
      eventDrift decimals holders event
      + drift decimals events' (applyEvent decimals holders event)
  end.

(** The subtraction and the addition of a transfer are exact: both results
    are finite and are the difference and the sum of the rationals. *)
Definition exactTransfer (from to : string) (value : number) (holders : Ledger)
    : bool :=
  let h1 := if has from holders then holders else set from zero holders in
  let h2 := if has to h1 then h1 else set to zero h1 in
  let a := getOrZero from h2 in
  let h3 := set from (sub a value) h2 in
  let b := getOrZero to h3 in
  isFinite (sub a value) && isFinite (add b value)
  && Qeq_bool (real (sub a value)) (real a - real value)
  && Qeq_bool (real (add b value)) (real b + real value).

Definition exactEvent (decimals : Z) (holders : Ledger) (event : Event) : bool :=
  match event with
  | Log _ => true
  | EventLog from to value _ =>
      match truthyString from, truthyString to, truthyValue value with
      | Some f, Some t, Some v =>
          match formatUnits v decimals with
          | Ok units => exactTransfer f t (parseFloat units) holders
          | Throw _ => true
          end
      | _, _, _ => true
      end
  end.

Fixpoint exactReplay (decimals : Z) (events : list Event) (holders : Ledger)
    : bool :=
  match events with
  | [] => true
  | event :: events' =>
      exactEvent decimals holders event
      && exactReplay decimals events' (applyEvent decimals holders event)
  end.

Definition finiteLedger (m : Ledger) : bool :=
  forallb (fun e => isFinite (snd e)) m.

End IEEE.

(** ** Whole amounts *)

(** The binary64 number of a positive integer below 2^53 with a sign: a
    mantissa of 53 bits. *)
Definition normal (s : bool) (n : positive) : IEEE.number :=
  S754_finite s (Z.to_pos (Z.pos n * 2 ^ (53 - Z.pos (digits2_pos n))))
    (Z.pos (digits2_pos n) - 53).

Definition signed (s : bool) (n : positive) : Z :=
  if s then Z.neg n else Z.pos n.

(** The raw amount, as a magnitude, of an event that passes the checks of
    lines 155-160; 0 for an event that is skipped. *)
Definition amount (event : Event) : Z :=
  match event with
  | Log _ => 0
  | EventLog from to value _ =>
      match truthyString from, truthyString to, truthyValue value with
      | Some _, Some _, Some v => Z.abs v
      | _, _, _ => 0
      end
  end.

Definition volume (events : list Event) : Z :=
  fold_right (fun event s => (amount event + s)%Z) 0%Z events.

(** Every balance is the number of an integer of magnitude at most
    [bound]. *)
Definition wholeLedger (bound : Z) (m : IEEE.Ledger) : Prop :=
  Forall (fun e => exists n, (Z.abs n <= bound)%Z /\ snd e = IEEE.ofZ n) m.

(** ** The statements over binary64 that the code does not meet *)

(** The balances of any replay from the empty ledger add up to 0. *)
Definition Conserved : Prop :=
  forall decimals events, IEEE.total (IEEE.replay decimals events []) == 0.

(** 2^53 minted to A, 1 sent on to B, 2 more minted to A; no decimals. *)
Module Rounded.
Definition events : list Event :=
  [ EventLog (Some Fixture.zero) (Some Fixture.A) (Some (2 ^ 53)%Z) "0x01";
    EventLog (Some Fixture.A) (Some Fixture.B) (Some 1%Z) "0x02";
    EventLog (Some Fixture.zero) (Some Fixture.A) (Some 2%Z) "0x03" ].
End Rounded.

(** The balances of a ledger, as rationals in lowest terms. *)
Definition balances (m : IEEE.Ledger) : list (string * Q) :=
  map (fun e => (fst e, Qred (IEEE.real (snd e)))) m.

(** The total supply of a report is within half a unit of the supply of
    the contract in token units. *)
Definition NearestWholeUnit (env : Env) (tokenAddress : string)
    (startBlock decimals : Z) : Prop :=
  forall supply stats,
    contract_totalSupply env = Ok supply ->
    IEEE.fetchHolders env tokenAddress startBlock decimals = Some stats ->
    let units := inject_Z supply / inject_Z (10 ^ decimals) in
    units - (1 # 2)
    <= IEEE.real (IEEE.HoldersStats.totalSupply stats)
    <= units + (1 # 2).

(** A token of 17 decimals with a supply of 0.49999999999999999, all of it
    minted to A. *)
Module HalfToken.
Definition chain : Chain := fun block =>
  if (block =? 0)%Z then
    [EventLog (Some Fixture.zero) (Some Fixture.A)
       (Some 49999999999999999%Z) "0x01"]
  else [].

Definition env : Env :=
  {| INFURA_KEY := Some "key";
     JsonRpcProvider := fun _ => Ok tt;
     Contract := fun _ => Ok tt;
     contract_totalSupply := Ok 49999999999999999%Z;
     provider_getBlockNumber := Ok 0%Z;
     contract_queryFilter := fun _ fromBlock toBlock =>
       Ok (logsIn chain fromBlock toBlock);
     provider_getCode := fun _ => Ok "0x";
     axios_get := fun _ => Ok (200%Z, None) |}.
End HalfToken.

(** The sum of line 211 for the top holders of a report. *)
Definition topBalance (stats : IEEE.HoldersStats.t) : IEEE.number :=
  fold_left (fun sum holder => IEEE.add sum (IEEE.TopHolder.balance holder))
    (IEEE.HoldersStats.topHolders stats) IEEE.zero.

(** ** Exceptions after the set-up *)

(** A log query that throws makes the outcome [null]. *)
Definition ThrowYieldsNull (env : Env) (tokenSymbol tokenAddress : string)
    (startBlock decimals : Z) : Prop :=
  forall endBlock w err,
    provider_getBlockNumber env = Ok endBlock ->
    In w (windows batchSize startBlock endBlock) ->
    (forall before,
       contract_queryFilter env before (fst w) (snd w) = Throw err) ->
    getTokenStats env tokenSymbol tokenAddress startBlock decimals = Ok None.

(** One of the four steps before the scan throws: lines 102-141. *)
Definition SetUpFails (env : Env) (tokenAddress : string) (decimals : Z)
    : Prop :=
  (exists err, initProvider env = Throw err)
  \/ (exists err, Contract env tokenAddress = Throw err)
  \/ (exists err, fetchTotalSupply env decimals = Throw err)
  \/ (exists err, provider_getBlockNumber env = Throw err).

(** * The rest of the module and its neighbours *)

From Stdlib Require Import Permutation Sorted.

(** ** What an event does to the ledger *)

(** The transfer an event stands for when it passes the checks of lines
    155-172: sender, receiver and decoded amount. *)
Definition applied (decimals : Z) (event : Event) : option (string * string * Q) :=
  match event with
  | Log _ => None
  | EventLog from to value _ =>
      match truthyString from, truthyString to, truthyValue value with
      | Some f, Some t, Some v =>
          match formatUnits v decimals with
          | Ok value' => Some (f, t, value')
          | Throw _ => None
          end
      | _, _, _ => None
      end
  end.

Definition isApplied (decimals : Z) (event : Event) : bool :=
  match applied decimals event with
  | Some _ => true
  | None => false
  end.

(** ** Order of the holders *)

(** [x] comes before [y] in an array sorted by decreasing key. *)
Definition descBy {A : Type} (key : A -> Q) (x y : A) : Prop := key y <= key x.

(** The entry of [filteredHolders] as the object of line 302. *)
Definition toHolder (e : string * Q) : Holder.t :=
  {| Holder.holder := fst e; Holder.balance := snd e |}.

(** The kind [classify] gives an address. *)
Definition kindOf (env : Env) (address : string) : HolderType :=
  match provider_getCode env address with
  | Ok code => if String.eqb code "0x" then wallet else contract
  | Throw _ => unknown
  end.

(** ** Tiling of a block range *)

(** The windows [ws] follow each other from block [from] and end with
    block [endBlock]; there is none when [endBlock] is before [from]. *)
Fixpoint tiles (from : Z) (ws : list (Z * Z)) (endBlock : Z) : Prop :=
  match ws with
  | [] => (endBlock < from)%Z
  | w :: ws' =>
      fst w = from /\ (fst w <= snd w <= endBlock)%Z /\
      tiles (snd w + 1) ws' endBlock
  end.

(** ** The same environment with another HTTP client *)

Definition withAxios (env : Env) (get : string -> Result (Z * option Q)) : Env :=
  {| INFURA_KEY := INFURA_KEY env;
     JsonRpcProvider := JsonRpcProvider env;
     Contract := Contract env;
     contract_totalSupply := contract_totalSupply env;
     provider_getBlockNumber := provider_getBlockNumber env;
     contract_queryFilter := contract_queryFilter env;
     provider_getCode := provider_getCode env;
     axios_get := get |}.

(** ** [getCurrentHolders], the count of the holders alone *)

(** One turn of its loop: the query is made without a pause, an empty
    answer is passed over, and a query that throws ends the scan. *)
Definition countWindow (env : Env) (decimals : Z) (batchSize : positive)
    (endBlock fromBlock : Z) (st : Scan) : Result Scan :=
  let toBlock := Z.min (fromBlock + Z.pos batchSize - 1) endBlock in
  let after := (trace st ++ [QueryFilter fromBlock toBlock])%list in
  match contract_queryFilter env (trace st) fromBlock toBlock with
  | Ok [] => Ok {| holders := holders st; trace := after |}
  | Ok events =>
      Ok {| holders := replay decimals events (holders st); trace := after |}
  | Throw e => Throw e
  end.

Equations? countLoop (env : Env) (decimals : Z) (batchSize : positive)
    (endBlock fromBlock : Z) (st : Scan) : Result Scan
    by wf (Z.to_nat (endBlock - fromBlock + 1)) lt :=
  countLoop env decimals batchSize endBlock fromBlock st
    with Z_le_gt_dec fromBlock endBlock => {
    | left _ with countWindow env decimals batchSize endBlock fromBlock st => {
      | Ok st' => countLoop env decimals batchSize endBlock
                    (fromBlock + Z.pos batchSize) st';
      | Throw e => Throw e };
    | right _ => Ok st }.
Proof. lia. Qed.

Definition holdersBatchSize : positive := 1000000.

(** The [try] block around the scan. *)
Definition countHolders (env : Env) (startBlock decimals : Z) : Result Z :=
  endBlock <- provider_getBlockNumber env ;;
  scan <- countLoop env decimals holdersBatchSize endBlock startBlock
            {| holders := []; trace := [] |} ;;
  Ok (Z.of_nat
        (List.length
           (filter (fun balance => Qgtb balance (1 # 100))
                   (map snd (holders scan))))).

(** [!tokenAddress || !startBlock]: the two arguments that can be falsy. *)
Definition invalidArguments (tokenAddress : string) (startBlock : Z) : bool :=
  String.eqb tokenAddress "" || (startBlock =? 0)%Z.

Definition getCurrentHolders (env : Env) (tokenAddress : string)
    (startBlock decimals : Z) : Z :=
  if invalidArguments tokenAddress startBlock then 0%Z
  else
    match initProvider env with
    | Throw _ => 0%Z
    | Ok _ =>
    match Contract env tokenAddress with
    | Throw _ => 0%Z
    | Ok _ =>
    match countHolders env startBlock decimals with
    | Throw _ => 0%Z
    | Ok count => count
    end end end.

(** The events of the windows, or the first failure of a query. *)
Fixpoint fetchedAll (env : Env) (ws : list (Z * Z)) (tr : Trace)
    : Result (list Event) :=
  match ws with
  | [] => Ok []
  | w :: ws' =>
      events <- contract_queryFilter env tr (fst w) (snd w) ;;
      rest <- fetchedAll env ws' (tr ++ [QueryFilter (fst w) (snd w)])%list ;;
      Ok (events ++ rest)%list
  end.

(** ** [fetchWithRetry], the HTTP client of the treasury holdings *)

Inductive HttpAction : Type :=
  | Post
  | Wait (ms : Z).

(** The pause after a rate-limited answer: the hint of the server in
    seconds when there is one, or the delay doubled with every attempt. *)
Definition waitTime (delay attempts : Z) (retryAfter : option Z) : Z :=
  match retryAfter with
  | Some seconds => (seconds * 1000)%Z
  | None => (delay * 2 ^ attempts)%Z
  end.

Section FetchWithRetry.
Context {T : Type}.

(** [axios.post(url, payload)] as answered to the attempt of a number. *)
Variable post : Z -> Result T.
Variable url : string.

(** [while (attempts < maxRetries)] *)
Equations? retryLoop (maxRetries delay attempts : Z) (tr : list HttpAction)
    : Result T * list HttpAction
    by wf (Z.to_nat (maxRetries - attempts)) lt :=
  retryLoop maxRetries delay attempts tr
    with Z_lt_ge_dec attempts maxRetries => {
    | left _ =>
        match post attempts with
        | Ok data => (Ok data, (tr ++ [Post])%list)
        | Throw (RateLimited retryAfter) =>
            retryLoop maxRetries delay (attempts + 1)
              (tr ++ [Post; Wait (waitTime delay attempts retryAfter)])%list
        | Throw e => (Throw e, (tr ++ [Post])%list)
        end;
    | right _ =>
        (Throw (Failure (String.append "Max retries exceeded for " url)), tr) }.
Proof. lia. Qed.

Definition fetchWithRetry (maxRetries delay : Z)
    : Result T * list HttpAction :=
  retryLoop maxRetries delay 0 [].

(** The pause after the attempt of a number, were it rate-limited. *)
Definition pauseAfter (delay attempt : Z) : Z :=
  match post attempt with
  | Throw (RateLimited retryAfter) => waitTime delay attempt retryAfter
  | _ => (delay * 2 ^ attempt)%Z
  end.

(** [n] rate-limited attempts from the attempt [first] on. *)
Fixpoint attempts (delay first : Z) (n : nat) : list HttpAction :=
  match n with
  | O => []
  | S n' => Post :: Wait (pauseAfter delay first)
            :: attempts delay (first + 1) n'
  end.
End FetchWithRetry.

Definition isRateLimited {T : Type} (r : Result T) : Prop :=
  exists retryAfter, r = Throw (RateLimited retryAfter).

Definition posts (tr : list HttpAction) : nat :=
  List.length (filter (fun a => match a with Post => true | Wait _ => false end) tr).

Fixpoint waited (tr : list HttpAction) : Z :=
  match tr with
  | [] => 0
  | Post :: tr' => waited tr'
  | Wait ms :: tr' => (ms + waited tr')%Z
  end.

(** A server that rate-limits the first two attempts, and one that
    rate-limits every attempt. *)
Definition flaky (attempt : Z) : Result string :=
  if (attempt <? 2)%Z then Throw (RateLimited None) else Ok "data".

Definition busy (attempt : Z) : Result string := Throw (RateLimited None).

(** ** [getClosestValue], of the treasury route *)

Module HistoricalTreasury.
Record t : Type := {
  date : Z;                    (* [new Date(date).getTime()], in ms *)
  balance : string;
  assets : string
}.
End HistoricalTreasury.

Section ClosestValue.

(** [parseFloat], [None] for NaN. *)
Variable parseFloat : string -> option Q.

(** [parseFloat(s) || 0] *)
Definition parseFloatOrZero (s : string) : Q :=
  match parseFloat s with
  | Some v => if Qeq_bool v 0 then 0 else v
  | None => 0
  end.

(** The callback of [reduce]. *)
Definition closer (targetTime : Z) (prev curr : HistoricalTreasury.t)
    : HistoricalTreasury.t :=
  if (Z.abs (HistoricalTreasury.date curr - targetTime)
      <? Z.abs (HistoricalTreasury.date prev - targetTime))%Z
  then curr else prev.

Definition closestEntry (targetTime : Z) (first : HistoricalTreasury.t)
    (rest : list HistoricalTreasury.t) : HistoricalTreasury.t :=
  fold_left (closer targetTime) rest first.

Definition getClosestValue (historicalData : list HistoricalTreasury.t)
    (targetTime : Z) : option Q :=
  match historicalData with
  | [] => None
  | first :: rest =>
      let closestEntry := closestEntry targetTime first rest in
      if (HistoricalTreasury.date closestEntry >? targetTime)%Z then None
      else Some (parseFloatOrZero (HistoricalTreasury.balance closestEntry))
  end.

End ClosestValue.

(** How far an entry is from the target time. *)
Definition distance (targetTime : Z) (e : HistoricalTreasury.t) : Z :=
  Z.abs (HistoricalTreasury.date e - targetTime).

(** A [parseFloat] for the witnesses: it knows two strings. *)
Definition parseKnown (s : string) : option Q :=
  if String.eqb s "100.5" then Some (201 # 2)
  else if String.eqb s "250" then Some 250
  else None.

(** ** [sanitizeName] *)

Definition isDigit (c : ascii) : bool :=
  (48 <=? nat_of_ascii c)%nat && (nat_of_ascii c <=? 57)%nat.

Definition isUpper (c : ascii) : bool :=
  (65 <=? nat_of_ascii c)%nat && (nat_of_ascii c <=? 90)%nat.

Definition isLower (c : ascii) : bool :=
  (97 <=? nat_of_ascii c)%nat && (nat_of_ascii c <=? 122)%nat.

(** [[a-zA-Z0-9]] *)
Definition isAlnum (c : ascii) : bool := isLower c || isUpper c || isDigit c.

Fixpoint allChars (p : ascii -> bool) (s : string) : bool :=
  match s with
  | EmptyString => true
  | String c s' => p c && allChars p s'
  end.

(** [/^[a-zA-Z0-9]+$/.test(name) ? name : null] *)
Definition sanitizeName (name : string) : option string :=
  match name with
  | EmptyString => None
  | _ => if allChars isAlnum name then Some name else None
  end.

(** [toLowerCase] on the letters A-Z; the other code units of the names that
    pass [sanitizeName] are digits and small letters, which it keeps. *)
Definition lowerChar (c : ascii) : ascii :=
  if isUpper c then ascii_of_nat (nat_of_ascii c + 32) else c.

Fixpoint toLowerCase (s : string) : string :=
  match s with
  | EmptyString => EmptyString
  | String c s' => String (lowerChar c) (toLowerCase s')
  end.

(** The key of a DAO in the treasury collection, lines 28-29 of the
    treasury refresh. *)
Definition treasuryKey (name : string) : option string :=
  match sanitizeName name with
  | Some sanitized => Some (toLowerCase sanitized)
  | None => None
  end.

(** A history of two entries, for the witnesses. *)
Definition history : list HistoricalTreasury.t :=
  [ {| HistoricalTreasury.date := 100; HistoricalTreasury.balance := "100.5";
       HistoricalTreasury.assets := "0" |};
    {| HistoricalTreasury.date := 200; HistoricalTreasury.balance := "250";
       HistoricalTreasury.assets := "0" |} ].

(** [[a-z0-9]] *)
Definition isLowerOrDigit (c : ascii) : bool := isLower c || isDigit c.

(** ** [getAssetsManaged] *)

(** [networkMapping[chain] || 'ETHEREUM_MAINNET'] *)
Definition networkOf (chain : string) : string :=
  if String.eqb chain "eth" then "ETHEREUM_MAINNET"
  else if String.eqb chain "sol" then "SOLANA_MAINNET"
  else if String.eqb chain "base" then "BASE_MAINNET"
  else if String.eqb chain "poly" then "POLYGON_MAINNET"
  else if String.eqb chain "btc" then "BITCOIN_MAINNET"
  else if String.eqb chain "arb" then "ARBITRUM_MAINNET"
  else "ETHEREUM_MAINNET".

Section AssetsManaged.

(** [parseFloat] of a [balanceUSD]: a binary64 number, NaN when the string
    is not one. *)
Variable parseFloat : string -> IEEE.number.

(** [process.env.ZAPPER_KEY] *)
Variable ZAPPER_KEY : option string.

(** The portfolio query for an address on a network: the [balanceUSD] of the
    holdings of the answer, [None] when the answer has no array of holdings;
    the request may throw. *)
Variable zapper_post : string -> string -> Result (option (list string)).

(** [holdings.reduce((sum, h) => sum + (parseFloat(h.balanceUSD) || 0), 0)] *)
Definition holdingsTotal (holdings : list string) : IEEE.number :=
  fold_left (fun sum h => IEEE.add sum (IEEE.orZero (parseFloat h)))
    holdings IEEE.zero.

(** The body of the loop over the entries of [walletData]. *)
Definition addWallet (totalUsd : IEEE.number) (wallet : string * string)
    : IEEE.number :=
  match zapper_post (fst wallet) (networkOf (snd wallet)) with
  | Ok (Some holdings) => IEEE.add totalUsd (holdingsTotal holdings)
  | Ok None => totalUsd                            (* unexpected format *)
  | Throw _ => totalUsd                            (* logged *)
  end.

Definition getAssetsManaged (walletData : list (string * string))
    : IEEE.number :=
  match truthyString ZAPPER_KEY with
  | None => IEEE.zero
  | Some _ => fold_left addWallet walletData IEEE.zero
  end.

End AssetsManaged.

(** A portfolio service for the witnesses: it fails for one address. *)
Definition zapperKnown (address network : string)
    : Result (option (list string)) :=
  if String.eqb address "0xdown" then Throw (Failure "timeout")
  else Ok (Some ["100.5"; "250"]).

(** The amounts of the witnesses. *)
Definition parseUsd (s : string) : IEEE.number :=
  if String.eqb s "100.5" then IEEE.nearest 1005 10
  else if String.eqb s "250" then IEEE.ofZ 250
  else S754_nan.
(** * Properties *)

(** ** The loop over block windows *)

Lemma windows_nil b f e : (f > e)%Z -> windows b f e = [].
Proof.
  intro H. unfold windows, windowCount.
  destruct (Z.leb_spec f e); [lia | reflexivity].
Qed.

Lemma windows_cons b f e :
  (f <= e)%Z ->
  windows b f e
  = (f, Z.min (f + Z.pos b - 1) e) :: windows b (f + Z.pos b) e.
Proof.
  intro H. unfold windows.
  assert (E : windowCount b f e = S (windowCount b (f + Z.pos b) e)).
  { unfold windowCount.
    destruct (Z.leb_spec f e); [|lia].
    destruct (Z.leb_spec (f + Z.pos b) e).
    - replace (e - f)%Z with ((e - (f + Z.pos b)) + 1 * Z.pos b)%Z by ring.
      rewrite Z.div_add by lia.
      assert (0 <= (e - (f + Z.pos b)) / Z.pos b)%Z
        by (apply Z.div_pos; lia).
      rewrite <- Z2Nat.inj_succ by lia. f_equal.
    - rewrite Z.div_small by lia. reflexivity. }
  rewrite E. reflexivity.
Qed.

(** Induction along the windows of a scan. *)
Lemma windows_induction b e (P : Z -> list (Z * Z) -> Prop) :
  (forall f, (f > e)%Z -> P f []) ->
  (forall f, (f <= e)%Z ->
     P (f + Z.pos b)%Z (windows b (f + Z.pos b) e) ->
     P f ((f, Z.min (f + Z.pos b - 1) e) :: windows b (f + Z.pos b) e)) ->
  forall f, P f (windows b f e).
Proof.
  intros Hnil Hcons f.
  remember (Z.to_nat (e - f + 1)) as n eqn:En.
  assert (Hn : (Z.to_nat (e - f + 1) <= n)%nat) by lia. clear En.
  revert f Hn. induction n as [|n IH]; intros f Hn.
  - rewrite windows_nil by lia. apply Hnil. lia.
  - destruct (Z_le_gt_dec f e) as [Hle|Hgt].
    + rewrite windows_cons by exact Hle. apply Hcons; [exact Hle|].
      apply IH. lia.
    + rewrite windows_nil by exact Hgt. apply Hnil. exact Hgt.
Qed.

(** The loop is a fold over the windows: it replays the events of the
    windows that were fetched and makes one request for each window. *)
Lemma scanLoop_windows env d b e f st :
  scanLoop env d b e f st
  = {| holders := replay d (fetched env (windows b f e) (trace st)) (holders st);
       trace := (trace st ++ flat_map request (windows b f e))%list |}.
Proof.
  funelim (scanLoop env d b e f st).
  - rewrite H, (windows_cons _ fromBlock) by assumption. clear H Heqcall Heq.
    unfold scanWindow. simpl.
    destruct (contract_queryFilter env _ fromBlock _) as [events|err]; simpl.
    + unfold replay. rewrite fold_left_app, <- !app_assoc. reflexivity.
    + rewrite <- !app_assoc. reflexivity.
  - rewrite windows_nil by assumption. simpl. rewrite app_nil_r.
    destruct st; reflexivity.
Qed.

Lemma scanLogs_windows env d b s e :
  scanLogs env d b s e
  = {| holders := replay d (fetched env (windows b s e) []) [];
       trace := flat_map request (windows b s e) |}.
Proof. unfold scanLogs. rewrite scanLoop_windows. reflexivity. Qed.

(** ** Integers in binary64 *)

Lemma digits2_pos_iter m k :
  digits2_pos (Pos.iter xO m k) = (digits2_pos m + k)%positive.
Proof.
  induction k as [|k IH] using Pos.peano_ind.
  - simpl. lia.
  - rewrite Pos.iter_succ. simpl. rewrite IH. lia.
Qed.

Lemma iter_xO_pow m k : Z.pos (Pos.iter xO m k) = (Z.pos m * 2 ^ Z.pos k)%Z.
Proof.
  induction k as [|k IH] using Pos.peano_ind.
  - simpl. lia.
  - rewrite Pos.iter_succ, Pos2Z.inj_xO, IH, Pos2Z.inj_succ, Z.pow_succ_r by lia.
    ring.
Qed.

Lemma binary_round_aux_exact s mz ez :
  Z.pos (digits2_pos mz) = 53%Z -> (-1074 <= ez <= 971)%Z ->
  binary_round_aux IEEE.prec IEEE.emax s (Z.pos mz) ez loc_Exact
  = S754_finite s mz ez.
Proof.
  intros Hd He.
  assert (F : (fexp IEEE.prec IEEE.emax (Z.pos (digits2_pos mz) + ez) - ez
               = 0)%Z).
  { unfold fexp, emin, IEEE.prec, IEEE.emax. rewrite Hd. lia. }
  unfold binary_round_aux, shr_fexp. cbn [Zdigits2 shr_record_of_loc].
  rewrite F. cbn [shr shr_m loc_of_shr_record round_nearest_even Zdigits2
                  shr_record_of_loc].
  rewrite F. cbn [shr shr_m].
  unfold IEEE.prec, IEEE.emax.
  destruct (Z.leb_spec ez (1024 - 53)); [reflexivity | lia].
Qed.

(** [iter_pos] is [Pos.iter]. *)
Lemma iter_pos_iter {A} (f : A -> A) p x : iter_pos f p x = Pos.iter f x p.
Proof.
  revert x. induction p as [p IH | p IH |]; intro x; simpl.
  - rewrite !IH. rewrite <- !Pos.iter_swap. reflexivity.
  - rewrite !IH. reflexivity.
  - reflexivity.
Qed.

(** Shifting out zeros loses nothing. *)
Lemma shr_zeros m q :
  iter_pos shr_1 q
    {| shr_m := Z.pos (Pos.iter xO m q); shr_r := false; shr_s := false |}
  = {| shr_m := Z.pos m; shr_r := false; shr_s := false |}.
Proof.
  rewrite iter_pos_iter.
  induction q as [|q IH] using Pos.peano_ind.
  - reflexivity.
  - rewrite !Pos.iter_succ. rewrite <- Pos.iter_swap.
    cbn [shr_1 orb]. exact IH.
Qed.

(** A mantissa of 53 bits followed by [q] zeros is not rounded. *)
Lemma binary_round_aux_zeros s m q e :
  Z.pos (digits2_pos m) = 53%Z -> (-1074 <= e <= 971)%Z ->
  binary_round_aux IEEE.prec IEEE.emax s (Z.pos (Pos.iter xO m q))
    (e - Z.pos q) loc_Exact
  = S754_finite s m e.
Proof.
  intros Hd He.
  assert (F : (fexp IEEE.prec IEEE.emax
                 (Z.pos (digits2_pos (Pos.iter xO m q)) + (e - Z.pos q))
               - (e - Z.pos q) = Z.pos q)%Z).
  { rewrite digits2_pos_iter. unfold fexp, emin, IEEE.prec, IEEE.emax. lia. }
  assert (F' : (fexp IEEE.prec IEEE.emax (Z.pos (digits2_pos m) + e) - e
                = 0)%Z).
  { unfold fexp, emin, IEEE.prec, IEEE.emax. rewrite Hd. lia. }
  unfold binary_round_aux, shr_fexp. cbn [Zdigits2 shr_record_of_loc].
  rewrite F. cbn [shr]. rewrite shr_zeros.
  cbn [shr_m loc_of_shr_record round_nearest_even Zdigits2 shr_record_of_loc].
  replace (e - Z.pos q + Z.pos q)%Z with e by lia.
  rewrite F'. cbn [shr shr_m].
  unfold IEEE.prec, IEEE.emax.
  destruct (Z.leb_spec e (1024 - 53)); [reflexivity | lia].
Qed.

Lemma digits2_pos_lower m : (2 ^ (Z.pos (digits2_pos m) - 1) <= Z.pos m)%Z.
Proof.
  induction m as [m IH | m IH |]; simpl digits2_pos.
  - rewrite Pos2Z.inj_succ.
    replace (Z.succ (Z.pos (digits2_pos m)) - 1)%Z
      with (Z.succ (Z.pos (digits2_pos m) - 1)) by lia.
    rewrite Z.pow_succ_r by lia. lia.
  - rewrite Pos2Z.inj_succ.
    replace (Z.succ (Z.pos (digits2_pos m)) - 1)%Z
      with (Z.succ (Z.pos (digits2_pos m) - 1)) by lia.
    rewrite Z.pow_succ_r by lia. lia.
  - simpl. lia.
Qed.

Lemma digits2_pos_upper m k :
  (0 <= k)%Z -> (Z.pos m < 2 ^ k)%Z -> (Z.pos (digits2_pos m) <= k)%Z.
Proof.
  intros Hk Hm.
  destruct (Z_le_gt_dec (Z.pos (digits2_pos m)) k) as [H|H]; [exact H|].
  pose proof (digits2_pos_lower m) as L.
  assert (2 ^ k <= 2 ^ (Z.pos (digits2_pos m) - 1))%Z
    by (apply Z.pow_le_mono_r; lia).
  lia.
Qed.

(** A positive number that is [n * 2^K] is [n] followed by [K] zeros. *)
Lemma pos_shifted m n K :
  (0 <= K)%Z -> Z.pos m = (Z.pos n * 2 ^ K)%Z ->
  match K with
  | Z.pos k => m = Pos.iter xO n k
  | _ => m = n
  end.
Proof.
  intros HK H. destruct K as [|k|k]; [| |lia].
  - rewrite Z.pow_0_r, Z.mul_1_r in H. injection H as ->. reflexivity.
  - rewrite <- iter_xO_pow in H. injection H as ->. reflexivity.
Qed.

Lemma digits_shifted m n K :
  (0 <= K)%Z -> Z.pos m = (Z.pos n * 2 ^ K)%Z ->
  Z.pos (digits2_pos m) = (Z.pos (digits2_pos n) + K)%Z.
Proof.
  intros HK H. pose proof (pos_shifted m n K HK H) as E.
  destruct K as [|k|k]; subst m; [lia | | lia].
  rewrite digits2_pos_iter. lia.
Qed.

(** Rounding [n * 2^K] at exponent [-K] gives the number of [n]. *)
Lemma binary_round_integer s m n K :
  (0 <= K <= 1074)%Z -> Z.pos m = (Z.pos n * 2 ^ K)%Z -> (Z.pos n < 2 ^ 53)%Z ->
  binary_round IEEE.prec IEEE.emax s m (- K) = normal s n.
Proof.
  intros HK Hm Hn.
  pose proof (digits2_pos_upper n 53 ltac:(lia) Hn) as Hd.
  set (d := Z.pos (digits2_pos n)) in *.
  assert (Hpow : (0 < Z.pos n * 2 ^ (53 - d))%Z)
    by (apply Z.mul_pos_pos; [lia | apply Z.pow_pos_nonneg; lia]).
  unfold normal. fold d. set (m53 := Z.to_pos (Z.pos n * 2 ^ (53 - d))).
  assert (Hm53 : Z.pos m53 = (Z.pos n * 2 ^ (53 - d))%Z)
    by (subst m53; rewrite Z2Pos.id; [reflexivity | exact Hpow]).
  assert (Hd53 : Z.pos (digits2_pos m53) = 53%Z).
  { rewrite (digits_shifted m53 n (53 - d)) by (lia || exact Hm53).
    fold d. lia. }
  unfold binary_round.
  assert (F : fexp IEEE.prec IEEE.emax (Z.pos (digits2_pos m) + - K)
              = (d - 53)%Z).
  { rewrite (digits_shifted m n K) by (lia || exact Hm). fold d.
    unfold fexp, emin, IEEE.prec, IEEE.emax. lia. }
  rewrite F. unfold shl_align.
  destruct (d - 53 - - K)%Z as [|q|p] eqn:E.
  - (* K = 53 - d *)
    assert (m = m53).
    { apply Pos2Z.inj. rewrite Hm, Hm53. f_equal. f_equal. lia. }
    subst m. replace (- K)%Z with (d - 53)%Z by lia.
    apply binary_round_aux_exact; [exact Hd53 | lia].
  - (* K = 53 - d + q *)
    assert (m = Pos.iter xO m53 q).
    { apply Pos2Z.inj. rewrite iter_xO_pow, Hm, Hm53, <- Z.mul_assoc.
      rewrite <- Z.pow_add_r by lia. f_equal. f_equal. lia. }
    subst m. replace (- K)%Z with (d - 53 - Z.pos q)%Z by lia.
    apply binary_round_aux_zeros; [exact Hd53 | lia].
  - (* K < 53 - d *)
    assert (Pos.iter xO m p = m53).
    { apply Pos2Z.inj. rewrite iter_xO_pow, Hm, Hm53, <- Z.mul_assoc.
      rewrite <- Z.pow_add_r by lia. f_equal. f_equal. lia. }
    rewrite H. apply binary_round_aux_exact; [exact Hd53 | lia].
Qed.

Lemma ofZ_pos n : (Z.pos n < 2 ^ 53)%Z -> IEEE.ofZ (Z.pos n) = normal false n.
Proof.
  intro H. unfold IEEE.ofZ, binary_normalize.
  apply (binary_round_integer false n n 0); [lia | lia | exact H].
Qed.

Lemma ofZ_neg n : (Z.pos n < 2 ^ 53)%Z -> IEEE.ofZ (Z.neg n) = normal true n.
Proof.
  intro H. unfold IEEE.ofZ, binary_normalize.
  apply (binary_round_integer true n n 0); [lia | lia | exact H].
Qed.

(** The signed integer of a sign and a magnitude. *)
Lemma cond_Zopp_sign s z : cond_Zopp s z = ((if s then -1 else 1) * z)%Z.
Proof. unfold cond_Zopp. destruct s; lia. Qed.

Lemma shl_align_value m e e' :
  (e' <= e)%Z ->
  Z.pos (fst (shl_align m e e')) = (Z.pos m * 2 ^ (e - e'))%Z.
Proof.
  intro H. unfold shl_align.
  destruct (e' - e)%Z as [|p|p] eqn:E; cbn [fst]; try lia.
  - replace (e - e')%Z with 0%Z by lia. lia.
  - rewrite iter_xO_pow. f_equal. f_equal. lia.
Qed.

(** The number of an integer below 2^53 in magnitude. *)
Lemma ofZ_cases n :
  (Z.abs n < 2 ^ 53)%Z ->
  match n with
  | Z0 => IEEE.ofZ n = S754_zero false
  | Z.pos p => IEEE.ofZ n = normal false p
  | Z.neg p => IEEE.ofZ n = normal true p
  end.
Proof.
  intro H. destruct n; [reflexivity | apply ofZ_pos; lia | apply ofZ_neg; lia].
Qed.

(** Rounding the integer [N] given as [z = N * 2^K] at exponent [-K]. *)
Lemma binary_normalize_integer z N K :
  (0 <= K <= 1074)%Z -> z = (N * 2 ^ K)%Z -> (Z.abs N < 2 ^ 53)%Z ->
  binary_normalize IEEE.prec IEEE.emax z (- K) false = IEEE.ofZ N.
Proof.
  intros HK Hz HN.
  pose proof (Z.pow_pos_nonneg 2 K ltac:(lia) ltac:(lia)) as Hp.
  pose proof (ofZ_cases N HN) as E.
  destruct N as [|n|n]; rewrite E.
  - subst z. reflexivity.
  - destruct z as [|m|m]; try nia.
    unfold binary_normalize.
    apply (binary_round_integer false m n K); [lia | exact Hz | lia].
  - destruct z as [|m|m]; try nia.
    unfold binary_normalize.
    apply (binary_round_integer true m n K); [lia | | lia].
    change (Z.neg m) with (- Z.pos m)%Z in Hz.
    change (Z.neg n) with (- Z.pos n)%Z in Hz. lia.
Qed.

(** The exponent and the signed value of [normal]. *)
Lemma normal_value s n :
  (Z.pos n < 2 ^ 53)%Z ->
  exists m k,
    normal s n = S754_finite s m (- k) /\ (0 <= k <= 52)%Z /\
    Z.pos m = (Z.pos n * 2 ^ k)%Z.
Proof.
  intro Hn.
  pose proof (digits2_pos_upper n 53 ltac:(lia) Hn) as Hd.
  unfold normal. set (d := Z.pos (digits2_pos n)) in *.
  exists (Z.to_pos (Z.pos n * 2 ^ (53 - d))), (53 - d)%Z.
  split; [f_equal; lia|]. split; [lia|].
  rewrite Z2Pos.id; [reflexivity|].
  apply Z.mul_pos_pos; [lia | apply Z.pow_pos_nonneg; lia].
Qed.

(** Sums and differences of integers below 2^53 are exact. *)
Lemma add_normal sa a sb b :
  (Z.pos a < 2 ^ 53)%Z -> (Z.pos b < 2 ^ 53)%Z ->
  (Z.abs (signed sa a + signed sb b) < 2 ^ 53)%Z ->
  IEEE.add (normal sa a) (normal sb b) = IEEE.ofZ (signed sa a + signed sb b).
Proof.
  intros Ha Hb Hab.
  destruct (normal_value sa a Ha) as (ma & ka & -> & Hka & Hma).
  destruct (normal_value sb b Hb) as (mb & kb & -> & Hkb & Hmb).
  unfold IEEE.add, SFadd.
  set (ez := Z.min (- ka) (- kb)).
  replace ez with (- Z.max ka kb)%Z by (subst ez; lia).
  apply binary_normalize_integer; [lia | | exact Hab].
  rewrite !cond_Zopp_sign.
  replace (- Z.max ka kb)%Z with ez by (subst ez; lia).
  rewrite !shl_align_value by (subst ez; lia).
  rewrite Hma, Hmb.
  replace (- ka - ez)%Z with (Z.max ka kb - ka)%Z by (subst ez; lia).
  replace (- kb - ez)%Z with (Z.max ka kb - kb)%Z by (subst ez; lia).
  rewrite <- !Z.mul_assoc, <- !Z.pow_add_r by lia.
  replace (ka + (Z.max ka kb - ka))%Z with (Z.max ka kb) by lia.
  replace (kb + (Z.max ka kb - kb))%Z with (Z.max ka kb) by lia.
  unfold signed. destruct sa, sb; lia.
Qed.

Lemma sub_normal sa a sb b :
  (Z.pos a < 2 ^ 53)%Z -> (Z.pos b < 2 ^ 53)%Z ->
  (Z.abs (signed sa a - signed sb b) < 2 ^ 53)%Z ->
  IEEE.sub (normal sa a) (normal sb b) = IEEE.ofZ (signed sa a - signed sb b).
Proof.
  intros Ha Hb Hab.
  destruct (normal_value sa a Ha) as (ma & ka & -> & Hka & Hma).
  destruct (normal_value sb b Hb) as (mb & kb & -> & Hkb & Hmb).
  unfold IEEE.sub, SFsub.
  set (ez := Z.min (- ka) (- kb)).
  replace ez with (- Z.max ka kb)%Z by (subst ez; lia).
  apply binary_normalize_integer; [lia | | exact Hab].
  rewrite !cond_Zopp_sign.
  replace (- Z.max ka kb)%Z with ez by (subst ez; lia).
  rewrite !shl_align_value by (subst ez; lia).
  rewrite Hma, Hmb.
  replace (- ka - ez)%Z with (Z.max ka kb - ka)%Z by (subst ez; lia).
  replace (- kb - ez)%Z with (Z.max ka kb - kb)%Z by (subst ez; lia).
  rewrite <- !Z.mul_assoc, <- !Z.pow_add_r by lia.
  replace (ka + (Z.max ka kb - ka))%Z with (Z.max ka kb) by lia.
  replace (kb + (Z.max ka kb - kb))%Z with (Z.max ka kb) by lia.
  unfold signed. destruct sa, sb; lia.
Qed.

Lemma add_ofZ a b :
  (Z.abs a < 2 ^ 53)%Z -> (Z.abs b < 2 ^ 53)%Z -> (Z.abs (a + b) < 2 ^ 53)%Z ->
  IEEE.add (IEEE.ofZ a) (IEEE.ofZ b) = IEEE.ofZ (a + b).
Proof.
  intros Ha Hb Hab.
  pose proof (ofZ_cases a Ha) as Ea. pose proof (ofZ_cases b Hb) as Eb.
  destruct a as [|a|a], b as [|b|b]; rewrite ?Ea, ?Eb; try reflexivity;
    try (rewrite ?Z.add_0_r, ?Z.add_0_l;
         first [rewrite ofZ_pos by lia | rewrite ofZ_neg by lia];
         unfold normal; reflexivity).
  - apply (add_normal false a false b); unfold signed; lia.
  - apply (add_normal false a true b); unfold signed; lia.
  - apply (add_normal true a false b); unfold signed; lia.
  - apply (add_normal true a true b); unfold signed; lia.
Qed.

Lemma sub_ofZ a b :
  (Z.abs a < 2 ^ 53)%Z -> (Z.abs b < 2 ^ 53)%Z -> (Z.abs (a - b) < 2 ^ 53)%Z ->
  IEEE.sub (IEEE.ofZ a) (IEEE.ofZ b) = IEEE.ofZ (a - b).
Proof.
  intros Ha Hb Hab.
  pose proof (ofZ_cases a Ha) as Ea. pose proof (ofZ_cases b Hb) as Eb.
  destruct a as [|a|a], b as [|b|b]; rewrite ?Ea, ?Eb; try reflexivity.
  - change (0 - Z.pos b)%Z with (Z.neg b). rewrite ofZ_neg by lia. reflexivity.
  - change (0 - Z.neg b)%Z with (Z.pos b). rewrite ofZ_pos by lia. reflexivity.
  - rewrite Z.sub_0_r, ofZ_pos by lia. reflexivity.
  - apply (sub_normal false a false b); unfold signed; lia.
  - apply (sub_normal false a true b); unfold signed; lia.
  - rewrite Z.sub_0_r, ofZ_neg by lia. reflexivity.
  - apply (sub_normal true a false b); unfold signed; lia.
  - apply (sub_normal true a true b); unfold signed; lia.
Qed.

Lemma div_eucl_1 z : Z.div_eucl z 1 = (z, 0%Z).
Proof.
  pose proof (Z.div_1_r z) as Hq. pose proof (Z.mod_1_r z) as Hr.
  unfold Z.div, Z.modulo in *.
  destruct (Z.div_eucl z 1) as [q r]. simpl in *. congruence.
Qed.

(** The quotient of a positive integer below 2^53 by 1 is not rounded. *)
Lemma nearest_whole_pos s n :
  (Z.pos n < 2 ^ 53)%Z ->
  (let '(q, e, l) := SFdiv_core_binary IEEE.prec IEEE.emax (Z.pos n) 0 1 0 in
   binary_round_aux IEEE.prec IEEE.emax s q e l)
  = normal s n.
Proof.
  intro Hn.
  pose proof (digits2_pos_upper n 53 ltac:(lia) Hn) as Hd.
  unfold SFdiv_core_binary. cbn [Zdigits2 digits2_pos].
  set (d := Z.pos (digits2_pos n)) in *.
  assert (F : Z.min (fexp IEEE.prec IEEE.emax (d + 0 - (1 + 0))) (0 - 0)
              = (d - 54)%Z).
  { unfold fexp, emin, IEEE.prec, IEEE.emax. lia. }
  rewrite F.
  replace (0 - 0 - (d - 54))%Z with (54 - d)%Z by lia.
  destruct (54 - d)%Z as [|sh|sh] eqn:E; try lia.
  rewrite div_eucl_1.
  change (new_location 1 0) with loc_Exact.
  rewrite Z.shiftl_mul_pow2 by lia.
  assert (Hpow : (0 < Z.pos n * 2 ^ (53 - d))%Z)
    by (apply Z.mul_pos_pos; [lia | apply Z.pow_pos_nonneg; lia]).
  unfold normal. fold d. set (m53 := Z.to_pos (Z.pos n * 2 ^ (53 - d))).
  assert (Hm53 : Z.pos m53 = (Z.pos n * 2 ^ (53 - d))%Z)
    by (subst m53; rewrite Z2Pos.id; [reflexivity | exact Hpow]).
  assert (Hd53 : Z.pos (digits2_pos m53) = 53%Z).
  { rewrite (digits_shifted m53 n (53 - d)) by (lia || exact Hm53).
    fold d. lia. }
  replace (Z.pos n * 2 ^ Z.pos sh)%Z with (Z.pos (Pos.iter xO m53 1)).
  2: { rewrite iter_xO_pow, Hm53, <- Z.mul_assoc, <- Z.pow_add_r by lia.
       f_equal. f_equal. lia. }
  replace (d - 54)%Z with (d - 53 - 1)%Z by lia.
  apply binary_round_aux_zeros; [exact Hd53 | lia].
Qed.

Lemma nearest_whole v :
  (Z.abs v < 2 ^ 53)%Z -> IEEE.nearest v 1 = IEEE.ofZ v.
Proof.
  intro H. pose proof (ofZ_cases v H) as E.
  destruct v as [|n|n]; rewrite E; [reflexivity | |];
    unfold IEEE.nearest; apply nearest_whole_pos; lia.
Qed.

Lemma real_finite s m k :
  (0 <= k)%Z ->
  IEEE.real (S754_finite s m (- k))
  == (if s then -1 else 1) * (inject_Z (Z.pos m) / inject_Z (2 ^ k)).
Proof.
  intro Hk. unfold IEEE.real.
  destruct (Z.leb_spec 0 (- k)) as [H|H].
  - assert (k = 0%Z) by lia. subst k. simpl Z.opp. rewrite Z.pow_0_r, Z.mul_1_r.
    change (inject_Z 1) with 1. destruct s; field.
  - rewrite Z.opp_involutive. destruct s; lra.
Qed.

Lemma real_normal s n :
  (Z.pos n < 2 ^ 53)%Z -> IEEE.real (normal s n) == inject_Z (signed s n).
Proof.
  intro Hn. destruct (normal_value s n Hn) as (m & k & -> & Hk & Hm).
  rewrite (real_finite s m k) by lia. rewrite Hm, inject_Z_mult.
  assert (~ inject_Z (2 ^ k) == 0).
  { change 0 with (inject_Z 0). rewrite inject_Z_injective.
    pose proof (Z.pow_pos_nonneg 2 k ltac:(lia) ltac:(lia)). lia. }
  unfold signed. destruct s.
  - change (inject_Z (Z.neg n)) with (- inject_Z (Z.pos n)). field. assumption.
  - field. assumption.
Qed.

Lemma real_ofZ n :
  (Z.abs n < 2 ^ 53)%Z -> IEEE.real (IEEE.ofZ n) == inject_Z n.
Proof.
  intro H. pose proof (ofZ_cases n H) as E.
  destruct n as [|p|p]; rewrite E; [reflexivity | |].
  - apply (real_normal false p). lia.
  - apply (real_normal true p). lia.
Qed.

Lemma isFinite_ofZ n :
  (Z.abs n < 2 ^ 53)%Z -> IEEE.isFinite (IEEE.ofZ n) = true.
Proof.
  intro H. pose proof (ofZ_cases n H) as E.
  destruct n; rewrite E; reflexivity.
Qed.

Lemma orZero_ofZ n :
  (Z.abs n < 2 ^ 53)%Z -> IEEE.orZero (IEEE.ofZ n) = IEEE.ofZ n.
Proof.
  intro H. pose proof (ofZ_cases n H) as E.
  destruct n; rewrite E; reflexivity.
Qed.

Lemma ofZ_positive n :
  (0 < n < 2 ^ 53)%Z -> IEEE.gt (IEEE.ofZ n) IEEE.zero = true.
Proof.
  intro Hn. destruct n as [|m|m]; try lia.
  rewrite ofZ_pos by lia. reflexivity.
Qed.

(** ** The sum of the ledger over binary64 *)

Lemma real_orZero x : IEEE.real (IEEE.orZero x) = IEEE.real x.
Proof. destruct x; reflexivity. Qed.

Lemma has_false_get k m : IEEE.has k m = false -> IEEE.get k m = None.
Proof.
  induction m as [|[k' v] m IH]; simpl; [reflexivity|].
  destruct (String.eqb k k'); [discriminate | exact IH].
Qed.

(** Writing a balance changes the sum by the difference with the balance
    that [getOrZero] reads. *)
Lemma total_set k v m :
  IEEE.total (IEEE.set k v m)
  == IEEE.total m - IEEE.real (IEEE.getOrZero k m) + IEEE.real v.
Proof.
  induction m as [|[k' v'] m IH].
  - simpl. unfold IEEE.getOrZero. simpl. lra.
  - unfold IEEE.getOrZero in *. simpl.
    destruct (String.eqb k k'); simpl.
    + rewrite real_orZero. lra.
    + lra.
Qed.

Lemma total_absent k m :
  IEEE.total (if IEEE.has k m then m else IEEE.set k IEEE.zero m)
  == IEEE.total m.
Proof.
  destruct (IEEE.has k m) eqn:E; [reflexivity|].
  rewrite total_set. unfold IEEE.getOrZero.
  rewrite (has_false_get _ _ E). simpl. lra.
Qed.

Lemma total_transfer f t v h :
  IEEE.total (IEEE.transfer f t v h)
  == IEEE.total h + IEEE.transferDrift f t v h.
Proof.
  unfold IEEE.transfer, IEEE.transferDrift.
  set (h1 := if IEEE.has f h then h else IEEE.set f IEEE.zero h).
  set (h2 := if IEEE.has t h1 then h1 else IEEE.set t IEEE.zero h1).
  pose proof (total_absent f h) as E1. fold h1 in E1.
  pose proof (total_absent t h1) as E2. fold h2 in E2.
  rewrite !total_set. lra.
Qed.

Lemma total_applyEvent d h e :
  IEEE.total (IEEE.applyEvent d h e) == IEEE.total h + IEEE.eventDrift d h e.
Proof.
  unfold IEEE.applyEvent, IEEE.eventDrift.
  destruct e as [tx | from to value tx]; [lra|].
  destruct (truthyString from); [|lra].
  destruct (truthyString to); [|lra].
  destruct (truthyValue value) as [v|]; [|lra].
  destruct (IEEE.formatUnits v d); [|lra].
  apply total_transfer.
Qed.

Lemma total_replay d events h :
  IEEE.total (IEEE.replay d events h) == IEEE.total h + IEEE.drift d events h.
Proof.
  revert h. induction events as [|e events IH]; intro h.
  - simpl. lra.
  - unfold IEEE.replay in *. simpl fold_left. rewrite IH.
    rewrite total_applyEvent. simpl. lra.
Qed.

Lemma exactTransfer_drift f t v h :
  IEEE.exactTransfer f t v h = true -> IEEE.transferDrift f t v h == 0.
Proof.
  unfold IEEE.exactTransfer, IEEE.transferDrift.
  rewrite !andb_true_iff. intros [[_ H1] H2].
  apply Qeq_bool_eq in H1. apply Qeq_bool_eq in H2. lra.
Qed.

Lemma exactReplay_drift d events h :
  IEEE.exactReplay d events h = true -> IEEE.drift d events h == 0.
Proof.
  revert h. induction events as [|e events IH]; intro h; simpl.
  - reflexivity.
  - rewrite andb_true_iff. intros [He Hr]. rewrite (IH _ Hr).
    assert (E : IEEE.eventDrift d h e == 0); [|lra].
    unfold IEEE.exactEvent in He. unfold IEEE.eventDrift.
    destruct e as [tx | from to value tx]; [reflexivity|].
    destruct (truthyString from); [|reflexivity].
    destruct (truthyString to); [|reflexivity].
    destruct (truthyValue value) as [v|]; [|reflexivity].
    destruct (IEEE.formatUnits v d); [|reflexivity].
    apply exactTransfer_drift. exact He.
Qed.

Lemma finiteLedger_set k v m :
  IEEE.isFinite v = true -> IEEE.finiteLedger m = true ->
  IEEE.finiteLedger (IEEE.set k v m) = true.
Proof.
  intros Hv. unfold IEEE.finiteLedger.
  induction m as [|[k' v'] m IH]; simpl.
  - intros _. rewrite Hv. reflexivity.
  - rewrite andb_true_iff. intros [H1 H2].
    destruct (String.eqb k k'); simpl.
    + rewrite Hv. exact H2.
    + rewrite H1. exact (IH H2).
Qed.

Lemma finiteLedger_absent k m :
  IEEE.finiteLedger m = true ->
  IEEE.finiteLedger (if IEEE.has k m then m else IEEE.set k IEEE.zero m) = true.
Proof.
  intro H. destruct (IEEE.has k m); [exact H|].
  apply finiteLedger_set; [reflexivity | exact H].
Qed.

Lemma finiteLedger_transfer f t v h :
  IEEE.exactTransfer f t v h = true -> IEEE.finiteLedger h = true ->
  IEEE.finiteLedger (IEEE.transfer f t v h) = true.
Proof.
  unfold IEEE.exactTransfer, IEEE.transfer.
  rewrite !andb_true_iff. intros [[[F1 F2] _] _] H.
  apply finiteLedger_set; [exact F2|].
  apply finiteLedger_set; [exact F1|].
  apply finiteLedger_absent, finiteLedger_absent, H.
Qed.

Lemma finiteLedger_replay d events h :
  IEEE.exactReplay d events h = true -> IEEE.finiteLedger h = true ->
  IEEE.finiteLedger (IEEE.replay d events h) = true.
Proof.
  revert h. induction events as [|e events IH]; intro h; simpl.
  - intros _ H. exact H.
  - rewrite andb_true_iff. intros [He Hr] H.
    unfold IEEE.replay in *. simpl fold_left. apply (IH _ Hr).
    unfold IEEE.exactEvent in He. unfold IEEE.applyEvent.
    destruct e as [tx | from to value tx]; [exact H|].
    destruct (truthyString from); [|exact H].
    destruct (truthyString to); [|exact H].
    destruct (truthyValue value) as [v|]; [|exact H].
    destruct (IEEE.formatUnits v d); [|exact H].
    apply finiteLedger_transfer; assumption.
Qed.

(** ** Whole amounts *)

Lemma get_set_binary64 a k v m :
  IEEE.get a (IEEE.set k v m)
  = if String.eqb a k then Some v else IEEE.get a m.
Proof.
  induction m as [|[k' v'] m IH]; simpl.
  - destruct (String.eqb a k); reflexivity.
  - destruct (String.eqb_spec k k') as [->|Hk]; simpl.
    + destruct (String.eqb a k'); reflexivity.
    + destruct (String.eqb_spec a k') as [->|Ha].
      * destruct (String.eqb_spec k' k) as [E|_]; [congruence | reflexivity].
      * exact IH.
Qed.

Lemma wholeLedger_le b b' m :
  (b <= b')%Z -> wholeLedger b m -> wholeLedger b' m.
Proof.
  intros Hb H. eapply Forall_impl; [|exact H].
  intros e (n & Hn & E). exists n. split; [lia | exact E].
Qed.

Lemma wholeLedger_set b k n m :
  (Z.abs n <= b)%Z -> wholeLedger b m ->
  wholeLedger b (IEEE.set k (IEEE.ofZ n) m).
Proof.
  intros Hn H. induction H as [|[k' v'] m He H IH]; simpl.
  - constructor; [|constructor]. exists n. auto.
  - destruct (String.eqb k k').
    + constructor; [exists n; auto | exact H].
    + constructor; [exact He | exact IH].
Qed.

Lemma wholeLedger_absent b k m :
  (0 <= b)%Z -> wholeLedger b m ->
  wholeLedger b (if IEEE.has k m then m else IEEE.set k IEEE.zero m).
Proof.
  intros Hb H. destruct (IEEE.has k m); [exact H|].
  apply (wholeLedger_set b k 0); [lia | exact H].
Qed.

Lemma wholeLedger_getOrZero b k m :
  (0 <= b < 2 ^ 53)%Z -> wholeLedger b m ->
  exists n, (Z.abs n <= b)%Z /\ IEEE.getOrZero k m = IEEE.ofZ n.
Proof.
  intros Hb H. unfold IEEE.getOrZero.
  induction H as [|[k' v'] m He H IH]; simpl.
  - exists 0%Z. split; [lia | reflexivity].
  - destruct (String.eqb k k'); [|exact IH].
    destruct He as (n & Hn & E). simpl in E. subst v'.
    exists n. split; [exact Hn | apply orZero_ofZ; lia].
Qed.

(** A transfer of a whole amount between whole balances is exact. *)
Lemma whole_transfer b f t v h :
  (0 <= b)%Z -> (b + Z.abs v < 2 ^ 53)%Z -> wholeLedger b h ->
  IEEE.exactTransfer f t (IEEE.ofZ v) h = true /\
  wholeLedger (b + Z.abs v) (IEEE.transfer f t (IEEE.ofZ v) h).
Proof.
  intros Hb Hv H.
  unfold IEEE.exactTransfer, IEEE.transfer.
  set (h1 := if IEEE.has f h then h else IEEE.set f IEEE.zero h).
  set (h2 := if IEEE.has t h1 then h1 else IEEE.set t IEEE.zero h1).
  assert (H2 : wholeLedger b h2)
    by (apply wholeLedger_absent, wholeLedger_absent; assumption).
  destruct (wholeLedger_getOrZero b f h2 ltac:(lia) H2) as (na & Hna & Ea).
  rewrite Ea.
  assert (E1 : IEEE.sub (IEEE.ofZ na) (IEEE.ofZ v) = IEEE.ofZ (na - v))
    by (apply sub_ofZ; lia).
  rewrite E1.
  set (h3 := IEEE.set f (IEEE.ofZ (na - v)) h2).
  assert (H3 : wholeLedger (b + Z.abs v) h3).
  { apply wholeLedger_set; [lia|].
    apply (wholeLedger_le b); [lia | exact H2]. }
  assert (Eb : exists nb,
             (Z.abs (nb + v) <= b + Z.abs v)%Z /\ (Z.abs nb <= b + Z.abs v)%Z /\
             IEEE.getOrZero t h3 = IEEE.ofZ nb).
  { unfold IEEE.getOrZero, h3. rewrite get_set_binary64.
    destruct (String.eqb t f).
    - exists (na - v)%Z. split; [lia|]. split; [lia|]. apply orZero_ofZ. lia.
    - destruct (wholeLedger_getOrZero b t h2 ltac:(lia) H2) as (nb & Hnb & E).
      exists nb. split; [lia|]. split; [lia|]. exact E. }
  destruct Eb as (nb & Hsum & Hnb & Eb). rewrite Eb.
  assert (E2 : IEEE.add (IEEE.ofZ nb) (IEEE.ofZ v) = IEEE.ofZ (nb + v))
    by (apply add_ofZ; lia).
  rewrite E2. split.
  - rewrite !isFinite_ofZ by lia. cbn [andb].
    rewrite andb_true_iff. split; apply Qeq_bool_iff;
      rewrite !real_ofZ by lia.
    + unfold Z.sub. rewrite inject_Z_plus, inject_Z_opp. ring.
    + rewrite inject_Z_plus. ring.
  - apply wholeLedger_set; [exact Hsum | exact H3].
Qed.

(** With no decimals a whole amount below 2^53 is read as it is. *)
Lemma parseFloat_whole v :
  (Z.abs v < 2 ^ 53)%Z ->
  exists units,
    IEEE.formatUnits v 0 = Ok units /\ IEEE.parseFloat units = IEEE.ofZ v.
Proof.
  intro H. unfold IEEE.formatUnits. simpl (80 <? 0)%Z. cbv iota.
  assert (E : ((v <? - 2 ^ 511)%Z || (2 ^ 511 <=? v)%Z) = false).
  { apply orb_false_iff. split; [apply Z.ltb_ge | apply Z.leb_gt]; lia. }
  rewrite E. eexists. split; [reflexivity|].
  unfold IEEE.parseFloat. cbn [IEEE.unscaled IEEE.scale].
  change (10 ^ Z.max 0 0)%Z with 1%Z. apply nearest_whole. exact H.
Qed.

Lemma whole_event b h e :
  (0 <= b)%Z -> (b + amount e < 2 ^ 53)%Z -> wholeLedger b h ->
  IEEE.exactEvent 0 h e = true /\
  wholeLedger (b + amount e) (IEEE.applyEvent 0 h e).
Proof.
  intros Hb He H.
  unfold IEEE.exactEvent, IEEE.applyEvent, amount in *.
  destruct e as [tx | from to value tx].
  - split; [reflexivity|]. rewrite Z.add_0_r. exact H.
  - destruct (truthyString from) as [f|];
      [|split; [reflexivity | rewrite Z.add_0_r; exact H]].
    destruct (truthyString to) as [t|];
      [|split; [reflexivity | rewrite Z.add_0_r; exact H]].
    destruct (truthyValue value) as [v|];
      [|split; [reflexivity | rewrite Z.add_0_r; exact H]].
    destruct (parseFloat_whole v ltac:(lia)) as (units & -> & ->).
    apply whole_transfer; assumption.
Qed.

Lemma amount_nonneg e : (0 <= amount e)%Z.
Proof.
  unfold amount. destruct e as [|from to value tx]; [lia|].
  destruct (truthyString from), (truthyString to), (truthyValue value); lia.
Qed.

Lemma volume_nonneg events : (0 <= volume events)%Z.
Proof.
  induction events as [|e events IH]; simpl; [lia|].
  pose proof (amount_nonneg e). lia.
Qed.

Lemma whole_replay events :
  forall b h,
    (0 <= b)%Z -> (b + volume events < 2 ^ 53)%Z -> wholeLedger b h ->
    IEEE.exactReplay 0 events h = true /\
    wholeLedger (b + volume events) (IEEE.replay 0 events h).
Proof.
  induction events as [|e events IH]; intros b h Hb Hv H.
  - simpl. split; [reflexivity|]. rewrite Z.add_0_r. exact H.
  - cbn [volume fold_right] in Hv. fold (volume events) in Hv.
    pose proof (amount_nonneg e) as Ha.
    pose proof (volume_nonneg events) as Hvol.
    destruct (whole_event b h e Hb ltac:(lia) H) as [He Hw].
    destruct (IH (b + amount e)%Z (IEEE.applyEvent 0 h e)
                ltac:(lia) ltac:(lia) Hw) as [Hr Hw'].
    split.
    + simpl. rewrite He, Hr. reflexivity.
    + cbn [volume fold_right]. fold (volume events).
      rewrite Z.add_assoc. exact Hw'.
Qed.


(** C5, as the code has it.  Over binary64 a transfer stores the rounded
    difference and the rounded sum of lines 177-178.  Replayed from the
    empty ledger, the balances of any sequence of events add up to the
    rounding errors of these subtractions and additions ([real] reads a
    balance that is not finite as 0); when every one of them is exact, every
    balance is finite and the balances add up to zero.  They are all exact
    when the token has no decimals and the amounts of the events that are
    applied add up to less than 2^53. *)
Theorem ledger_sum_is_rounding_drift decimals events :
  IEEE.total (IEEE.replay decimals events [])
  == IEEE.drift decimals events [] /\
  (IEEE.exactReplay decimals events [] = true ->
   IEEE.finiteLedger (IEEE.replay decimals events []) = true /\
   IEEE.total (IEEE.replay decimals events []) == 0) /\
  (decimals = 0%Z -> (volume events < 2 ^ 53)%Z ->
   IEEE.exactReplay decimals events [] = true).
Proof.
  split; [|split].
  - rewrite total_replay. simpl. lra.
  - intro H. split.
    + apply finiteLedger_replay; [exact H | reflexivity].
    + rewrite total_replay, (exactReplay_drift _ _ _ H). simpl. lra.
  - intros -> H.
    apply (whole_replay events 0 []); [lia | lia | constructor].
Qed.

Lemma ledger_sum_is_rounding_drift_witness :
  (volume (logsIn Fixture.chain 0 2) < 2 ^ 53)%Z /\
  IEEE.exactReplay 0 (logsIn Fixture.chain 0 2) [] = true /\
  IEEE.total (IEEE.replay 0 (logsIn Fixture.chain 0 2) []) == 0.
Proof.
  assert (V : (volume (logsIn Fixture.chain 0 2) < 2 ^ 53)%Z) by reflexivity.
  destruct (ledger_sum_is_rounding_drift 0 (logsIn Fixture.chain 0 2))
    as (_ & Hzero & Hexact).
  pose proof (Hexact eq_refl V) as E.
  split; [exact V|]. split; [exact E|]. apply Hzero. exact E.
Defined.

(** C5, as stated, fails: 2^53 is minted to A, A sends 1 to B and 2 more
    are minted to A.  The last addition, 9007199254740991 + 2, is rounded to
    9007199254740992, and the three balances add up to -1. *)
Lemma rounded_ledger_is_not_conserved :
  balances (IEEE.replay 0 Rounded.events [])
  = [(Fixture.zero, -9007199254740994); (Fixture.A, 9007199254740992);
     (Fixture.B, 1)] /\
  IEEE.total (IEEE.replay 0 Rounded.events []) == -1 /\
  ~ Conserved.
Proof.
  split; [reflexivity|]. split; [reflexivity|].
  intro H. specialize (H 0%Z Rounded.events). vm_compute in H. discriminate H.
Qed.

(** ** Windows of a chain *)

Lemma blocksFrom_app f n1 n2 :
  blocksFrom f (n1 + n2)
  = (blocksFrom f n1 ++ blocksFrom (f + Z.of_nat n1) n2)%list.
Proof.
  revert f. induction n1 as [|n1 IH]; intro f.
  - simpl. rewrite Z.add_0_r. reflexivity.
  - cbn [blocksFrom Nat.add app]. rewrite IH. do 3 f_equal. lia.
Qed.

Lemma logsIn_empty chain a c : (a > c)%Z -> logsIn chain a c = [].
Proof.
  intro H. unfold logsIn, blocks.
  replace (Z.to_nat (c - a + 1)) with O by lia. reflexivity.
Qed.

Lemma logsIn_app chain a m c :
  (a <= m + 1)%Z -> (m <= c)%Z ->
  logsIn chain a c = (logsIn chain a m ++ logsIn chain (m + 1) c)%list.
Proof.
  intros H1 H2. unfold logsIn, blocks.
  replace (Z.to_nat (c - a + 1))
    with (Z.to_nat (m - a + 1) + Z.to_nat (c - (m + 1) + 1))%nat by lia.
  rewrite blocksFrom_app, flat_map_app.
  replace (a + Z.of_nat (Z.to_nat (m - a + 1)))%Z with (m + 1)%Z by lia.
  reflexivity.
Qed.

(** The windows of a scan cover its block range, in order. *)
Lemma logsIn_windows chain b e f :
  flat_map (fun w => logsIn chain (fst w) (snd w)) (windows b f e)
  = logsIn chain f e.
Proof.
  apply (windows_induction b e
           (fun f ws => flat_map (fun w => logsIn chain (fst w) (snd w)) ws
                        = logsIn chain f e)).
  - intros f' H. rewrite logsIn_empty by exact H. reflexivity.
  - intros f' Hle IH. cbn [flat_map fst snd]. rewrite IH.
    destruct (Z.min_spec (f' + Z.pos b - 1) e) as [[Hlt ->]|[Hge ->]].
    + rewrite (logsIn_app chain f' (f' + Z.pos b - 1) e) by lia.
      replace (f' + Z.pos b - 1 + 1)%Z with (f' + Z.pos b)%Z by ring.
      reflexivity.
    + rewrite (logsIn_empty chain (f' + Z.pos b)) by lia. apply app_nil_r.
Qed.

Lemma fetched_faithful env chain ws :
  Faithful env chain ->
  forall tr,
    fetched env ws tr = flat_map (fun w => logsIn chain (fst w) (snd w)) ws.
Proof.
  intro H. induction ws as [|w ws IH]; intro tr; simpl; [reflexivity|].
  rewrite H, IH. reflexivity.
Qed.

Lemma scanLogs_faithful env chain d b s e :
  Faithful env chain ->
  holders (scanLogs env d b s e) = replay d (logsIn chain s e) [].
Proof.
  intro H. rewrite scanLogs_windows. simpl.
  rewrite (fetched_faithful env chain _ H), logsIn_windows. reflexivity.
Qed.

(** C8. With a provider that answers every query with the logs of the
    chain, the final ledger does not depend on the size of the windows: it is
    the replay of the logs of [startBlock..endBlock] in block order, and so
    is the outcome of [getTokenStats]. *)
Theorem batch_equivalence env chain decimals size1 size2 startBlock endBlock :
  Faithful env chain ->
  holders (scanLogs env decimals size1 startBlock endBlock)
  = replay decimals (logsIn chain startBlock endBlock) [] /\
  holders (scanLogs env decimals size1 startBlock endBlock)
  = holders (scanLogs env decimals size2 startBlock endBlock) /\
  (forall tokenSymbol tokenAddress,
     getTokenStatsBy size1 env tokenSymbol tokenAddress startBlock decimals
     = getTokenStatsBy size2 env tokenSymbol tokenAddress startBlock decimals).
Proof.
  intro H. split; [|split].
  - apply (scanLogs_faithful _ _ _ _ _ _ H).
  - rewrite !(scanLogs_faithful _ _ _ _ _ _ H). reflexivity.
  - intros. unfold getTokenStatsBy, getTokenStatsBody, fetchHoldersBy.
    destruct (initProvider env); [|reflexivity].
    destruct (Contract env tokenAddress); [|reflexivity].
    destruct (fetchTotalSupply env decimals); [|reflexivity].
    destruct (provider_getBlockNumber env) as [e|]; [|reflexivity].
    rewrite !(scanLogs_faithful _ _ _ _ _ _ H). reflexivity.
Qed.

Lemma batch_equivalence_witness :
  Faithful Fixture.env Fixture.chain /\
  holders (scanLogs Fixture.env 0 2000001 0 2000000)
  = holders (scanLogs Fixture.env 0 1000000 0 2000000).
Proof.
  assert (H : Faithful Fixture.env Fixture.chain)
    by (intros before f t; reflexivity).
  split; [exact H|].
  apply (batch_equivalence Fixture.env Fixture.chain 0 2000001 1000000
           0 2000000 H).
Defined.

(** ** Arithmetic of [calculateStats] *)

Lemma Qfloor_div a p : Qfloor (inject_Z a / inject_Z (Z.pos p)) = (a / Z.pos p)%Z.
Proof.
  unfold Qdiv, Qmult, Qinv, inject_Z, Qfloor. cbn [Qnum Qden].
  rewrite Z.mul_1_r, Pos.mul_1_l. reflexivity.
Qed.

(** The index of a range bound is the integer quotient. *)
Lemma rangeIndex_div r n : rangeIndex r n = (r * n / 100)%Z.
Proof.
  unfold rangeIndex, Math_floor.
  rewrite <- (Qfloor_div (r * n) 100).
  apply Qfloor_comp. rewrite inject_Z_mult. field.
Qed.

Lemma insertDesc_length {A} (key : A -> Q) x l :
  List.length (insertDesc key x l) = S (List.length l).
Proof.
  induction l as [|y l IH]; simpl; [reflexivity|].
  destruct (Qgtb (key y) (key x)); simpl; [rewrite IH|]; reflexivity.
Qed.

Lemma sortDesc_length {A} (key : A -> Q) l :
  List.length (sortDesc key l) = List.length l.
Proof.
  induction l as [|x l IH]; simpl; [reflexivity|].
  unfold sortDesc in *. rewrite insertDesc_length, IH. reflexivity.
Qed.

Lemma index_ok {A} (l : list A) i :
  (0 <= i < Z.of_nat (List.length l))%Z -> exists a, index l i = Ok a.
Proof.
  intro H. unfold index. destruct (Z.ltb_spec i 0); [lia|].
  destruct (nth_error l (Z.to_nat i)) as [a|] eqn:E; [eauto|].
  apply nth_error_None in E. lia.
Qed.

(** The median never reads outside the array. *)
Lemma median_ok sorted : exists m, median sorted = Ok m.
Proof.
  unfold median, Math_floor.
  change (inject_Z (Z.of_nat (List.length sorted)) / 2)
    with (inject_Z (Z.of_nat (List.length sorted)) / inject_Z 2).
  rewrite Qfloor_div.
  set (n := Z.of_nat (List.length sorted)).
  assert (Hn : (0 <= n)%Z) by (subst n; lia).
  destruct (Z.eqb_spec n 0); [eauto|].
  destruct (Z.eqb_spec (n mod 2) 0).
  - destruct (index_ok sorted (n / 2 - 1)) as [lo ->]; [subst n; Z.to_euclidean_division_equations; lia|].
    destruct (index_ok sorted (n / 2)) as [hi ->]; [subst n; Z.to_euclidean_division_equations; lia|].
    simpl. eauto.
  - destruct (index_ok sorted (n / 2)) as [mid ->]; [subst n; Z.to_euclidean_division_equations; lia|].
    simpl. eauto.
Qed.

Lemma calculateStats_ok holdersArray :
  exists stats, calculateStats holdersArray = Ok stats.
Proof.
  unfold calculateStats.
  destruct (median_ok (sortDesc Holder.balance holdersArray)) as [m ->].
  simpl. eauto.
Qed.

Lemma assemble_ok env tokenSymbol holdersStats :
  exists response, assemble env tokenSymbol holdersStats = Ok (Some response).
Proof.
  unfold assemble.
  destruct (calculateStats_ok
              (map (fun e => {| Holder.holder := fst e; Holder.balance := snd e |})
                   (HoldersStats.filteredHolders holdersStats))) as [stats ->].
  simpl. eauto.
Qed.

(** ** The outcomes of [getTokenStats] *)

(** Either one of the four steps before the scan fails and the outcome is
    [null], or the outcome is the response made of the scanned ledger. *)
Lemma getTokenStatsBy_cases size env tokenSymbol tokenAddress startBlock decimals :
  getTokenStatsBy size env tokenSymbol tokenAddress startBlock decimals = Ok None
  \/ exists totalSupply endBlock,
       initProvider env = Ok tt /\
       Contract env tokenAddress = Ok tt /\
       fetchTotalSupply env decimals = Ok totalSupply /\
       provider_getBlockNumber env = Ok endBlock /\
       getTokenStatsBy size env tokenSymbol tokenAddress startBlock decimals
       = assemble env tokenSymbol
           (holdersStats env totalSupply
              (holders (scanLogs env decimals size startBlock endBlock))).
Proof.
  unfold getTokenStatsBy, getTokenStatsBody, fetchHoldersBy.
  destruct (initProvider env) as [[]|]; [|left; reflexivity].
  destruct (Contract env tokenAddress) as [[]|]; [|left; reflexivity].
  destruct (fetchTotalSupply env decimals) as [totalSupply|];
    [|left; reflexivity].
  destruct (provider_getBlockNumber env) as [endBlock|]; [|left; reflexivity].
  right. exists totalSupply, endBlock. repeat split.
  destruct (assemble_ok env tokenSymbol
              (holdersStats env totalSupply
                 (holders (scanLogs env decimals size startBlock endBlock))))
    as [response E].
  rewrite E. reflexivity.
Qed.

(** The outcome is [null] as soon as one of the four steps before the scan
    throws. *)
Lemma setUp_fails_null size env tokenSymbol tokenAddress startBlock decimals :
  SetUpFails env tokenAddress decimals ->
  getTokenStatsBy size env tokenSymbol tokenAddress startBlock decimals
  = Ok None.
Proof.
  unfold getTokenStatsBy, getTokenStatsBody, fetchHoldersBy.
  intros [[err H] | [[err H] | [[err H] | [err H]]]].
  - rewrite H. reflexivity.
  - destruct (initProvider env); [|reflexivity]. rewrite H. reflexivity.
  - destruct (initProvider env); [|reflexivity].
    destruct (Contract env tokenAddress); [|reflexivity].
    rewrite H. reflexivity.
  - destruct (initProvider env); [|reflexivity].
    destruct (Contract env tokenAddress); [|reflexivity].
    destruct (fetchTotalSupply env decimals); [|reflexivity].
    rewrite H. reflexivity.
Qed.

(** When the four steps succeed the outcome is a response, the one made of
    the scanned ledger. *)
Lemma setUp_succeeds_report size env tokenSymbol tokenAddress startBlock
    decimals totalSupply endBlock :
  initProvider env = Ok tt ->
  Contract env tokenAddress = Ok tt ->
  fetchTotalSupply env decimals = Ok totalSupply ->
  provider_getBlockNumber env = Ok endBlock ->
  exists response,
    getTokenStatsBy size env tokenSymbol tokenAddress startBlock decimals
    = Ok (Some response) /\
    assemble env tokenSymbol
      (holdersStats env totalSupply
         (holders (scanLogs env decimals size startBlock endBlock)))
    = Ok (Some response).
Proof.
  intros H1 H2 H3 H4.
  destruct (assemble_ok env tokenSymbol
              (holdersStats env totalSupply
                 (holders (scanLogs env decimals size startBlock endBlock))))
    as [response E].
  exists response. split; [|exact E].
  unfold getTokenStatsBy, getTokenStatsBody, fetchHoldersBy.
  rewrite H1, H2, H3, H4, E. reflexivity.
Qed.

Lemma setUp_cases env tokenAddress decimals :
  SetUpFails env tokenAddress decimals
  \/ exists totalSupply endBlock,
       initProvider env = Ok tt /\
       Contract env tokenAddress = Ok tt /\
       fetchTotalSupply env decimals = Ok totalSupply /\
       provider_getBlockNumber env = Ok endBlock.
Proof.
  unfold SetUpFails.
  destruct (initProvider env) as [[]|]; [|left; eauto].
  destruct (Contract env tokenAddress) as [[]|]; [|left; eauto].
  destruct (fetchTotalSupply env decimals) as [totalSupply|]; [|left; eauto 6].
  destruct (provider_getBlockNumber env) as [endBlock|]; [|left; eauto 6].
  right. eauto 6.
Qed.

(** C9, as the code has it.  [getTokenStats] always resolves, with [null]
    or with a response, and never rejects.  It resolves with [null] exactly
    when one of the four steps before the scan throws: the provider (which
    a missing credential makes throw), the contract, the total supply or the
    block number.  An exception thrown after them does not make the outcome
    [null]: a response is returned, with a [marketCap] of [null] when the
    market-cap request throws and with the type [unknown] for a top holder
    whose [getCode] throws. *)
Theorem getTokenStats_outcomes env tokenSymbol tokenAddress startBlock decimals :
  let outcome :=
    getTokenStats env tokenSymbol tokenAddress startBlock decimals in
  (outcome = Ok None \/ exists response, outcome = Ok (Some response)) /\
  (truthyString (INFURA_KEY env) = None -> outcome = Ok None) /\
  (outcome = Ok None <-> SetUpFails env tokenAddress decimals) /\
  (forall response,
     outcome = Ok (Some response) ->
     let tokenStats := TokenStatsResponse.tokenStats response in
     ((exists err,
         axios_get env
           (String.append "https://api.coingecko.com/api/v3/coins/" tokenSymbol)
         = Throw err) ->
      TokenStats.marketCap tokenStats = None) /\
     (forall holder,
        In holder (TokenStats.topHolders tokenStats) ->
        (exists err,
           provider_getCode env (TopHolder.address holder) = Throw err) ->
        TopHolder.type holder = unknown)).
Proof.
  intro outcome. subst outcome. unfold getTokenStats.
  assert (Hnull : SetUpFails env tokenAddress decimals ->
                  getTokenStatsBy batchSize env tokenSymbol tokenAddress
                    startBlock decimals = Ok None)
    by apply setUp_fails_null.
  destruct (setUp_cases env tokenAddress decimals)
    as [Hfail | (totalSupply & endBlock & H1 & H2 & H3 & H4)].
  - pose proof (Hnull Hfail) as E. rewrite E.
    split; [left; reflexivity|]. split; [reflexivity|].
    split; [split; [intros _; exact Hfail | reflexivity]|].
    intros response H. discriminate H.
  - destruct (setUp_succeeds_report batchSize env tokenSymbol tokenAddress
                startBlock decimals totalSupply endBlock H1 H2 H3 H4)
      as (response & E & Ha).
    rewrite E. split; [right; eauto|]. split; [|split].
    + intro Hkey. unfold initProvider in H1. rewrite Hkey in H1.
      discriminate H1.
    + split; [discriminate|]. intro Hfail. rewrite (Hnull Hfail) in E.
      discriminate E.
    + intros response' H. injection H as <-.
      unfold assemble in Ha.
      destruct (calculateStats _) as [stats|]; simpl in Ha; [|discriminate Ha].
      injection Ha as <-.
      cbn [TokenStatsResponse.tokenStats TokenStats.marketCap
           TokenStats.topHolders].
      split.
      * intros [err Herr]. unfold fetchMarketCap. rewrite Herr. reflexivity.
      * intros holder Hin [err Herr]. unfold holdersStats in Hin.
        destruct (Z.of_nat (List.length (filterHolders _)) =? 0)%Z;
          cbn [HoldersStats.topHolders] in Hin; [destruct Hin|].
        apply in_map_iff in Hin. destruct Hin as (e & <- & _).
        unfold classify in *.
        destruct (provider_getCode env (fst e)) eqn:Hcode;
          cbn [TopHolder.address TopHolder.type] in *;
          [congruence | reflexivity].
Qed.

Lemma getTokenStats_outcomes_witness :
  exists response,
    getTokenStats Limited.env "token" "0xT" 0 0 = Ok (Some response).
Proof.
  destruct (getTokenStats_outcomes Limited.env "token" "0xT" 0 0)
    as ([H | H] & _ & [Hnull _] & _).
  - destruct (Hnull H) as [[err E] | [[err E] | [[err E] | [err E]]]];
      discriminate E.
  - exact H.
Defined.

(** C9, as stated, fails: the log query of the second window of [Outage]
    throws, the exception is caught inside the loop, and the outcome is a
    response, not [null]. *)
Lemma thrown_query_still_reports :
  ~ ThrowYieldsNull Outage.env "token" "0xT" 0 0 /\
  exists response,
    getTokenStats Outage.env "token" "0xT" 0 0 = Ok (Some response).
Proof.
  assert (E : exists response,
             getTokenStats Outage.env "token" "0xT" 0 0 = Ok (Some response))
    by (vm_compute; eauto).
  split; [|exact E].
  intro H. destruct E as [response E].
  rewrite (H 100000%Z (100000%Z, 100000%Z) (Failure "timeout")) in E.
  - discriminate E.
  - reflexivity.
  - right. left. reflexivity.
  - intro tr. reflexivity.
Qed.

(** The events fetched for two runs of windows that follow each other. *)
Lemma fetched_app env ws1 ws2 tr :
  fetched env (ws1 ++ ws2) tr
  = (fetched env ws1 tr
     ++ fetched env ws2 (tr ++ flat_map request ws1))%list.
Proof.
  revert tr. induction ws1 as [|w ws1 IH]; intro tr.
  - simpl. rewrite app_nil_r. reflexivity.
  - cbn [app fetched flat_map]. rewrite IH, <- !app_assoc. reflexivity.
Qed.

(** C3, as the code has it.  The outcome of [getTokenStats] is [null]
    when one of the four steps before the scan throws, and otherwise it is
    the report of the ledger replayed from the events of the windows whose
    query succeeded.  A window whose query fails adds nothing and does not
    make the outcome [null]: the events are those of the windows before it
    and after it.  With a provider that answers every query with the logs
    of the chain, the events are all the events of [startBlock..endBlock]. *)
Theorem report_of_fetched_windows env tokenSymbol tokenAddress startBlock decimals :
  let outcome :=
    getTokenStats env tokenSymbol tokenAddress startBlock decimals in
  (SetUpFails env tokenAddress decimals
   \/ exists totalSupply endBlock,
        initProvider env = Ok tt /\
        Contract env tokenAddress = Ok tt /\
        fetchTotalSupply env decimals = Ok totalSupply /\
        provider_getBlockNumber env = Ok endBlock) /\
  (SetUpFails env tokenAddress decimals -> outcome = Ok None) /\
  (forall totalSupply endBlock,
     initProvider env = Ok tt ->
     Contract env tokenAddress = Ok tt ->
     fetchTotalSupply env decimals = Ok totalSupply ->
     provider_getBlockNumber env = Ok endBlock ->
     let ws := windows batchSize startBlock endBlock in
     (exists response,
        outcome = Ok (Some response) /\
        assemble env tokenSymbol
          (holdersStats env totalSupply
             (replay decimals (fetched env ws []) []))
        = Ok (Some response)) /\
     (forall ws1 w ws2 err,
        ws = (ws1 ++ w :: ws2)%list ->
        contract_queryFilter env (flat_map request ws1 ++ [Sleep 500])%list
          (fst w) (snd w) = Throw err ->
        fetched env ws []
        = (fetched env ws1 []
           ++ fetched env ws2 (flat_map request (ws1 ++ [w])))%list) /\
     (forall chain,
        Faithful env chain ->
        fetched env ws [] = logsIn chain startBlock endBlock)).
Proof.
  intro outcome. subst outcome. unfold getTokenStats.
  split; [apply setUp_cases|]. split; [apply setUp_fails_null|].
  intros totalSupply endBlock H1 H2 H3 H4. split; [|split].
  2: { intros ws1 w ws2 err -> Herr.
       rewrite fetched_app. cbn [fetched app]. rewrite Herr.
       rewrite flat_map_app. cbn [flat_map request app].
       rewrite <- !app_assoc. reflexivity. }
  - destruct (setUp_succeeds_report batchSize env tokenSymbol tokenAddress
                startBlock decimals totalSupply endBlock H1 H2 H3 H4)
      as (response & E & Ha).
    exists response. split; [exact E|].
    rewrite scanLogs_windows in Ha. exact Ha.
  - intros chain H.
    rewrite (fetched_faithful env chain _ H), logsIn_windows. reflexivity.
Qed.

Lemma report_of_fetched_windows_witness :
  exists response,
    getTokenStats Outage.env "token" "0xT" 0 0 = Ok (Some response) /\
    assemble Outage.env "token"
      (holdersStats Outage.env 1000
         (replay 0 (fetched Outage.env (windows batchSize 0 100000) []) []))
    = Ok (Some response).
Proof.
  destruct (report_of_fetched_windows Outage.env "token" "0xT" 0 0)
    as (_ & _ & H).
  destruct (H 1000 100000%Z eq_refl eq_refl eq_refl eq_refl) as [E _].
  exact E.
Defined.

(** C3, as stated, fails: the provider of [Outage] serves its chain, the
    query of the second window fails, and a report is returned that lacks
    the transfer of that window. *)
Lemma outage_report_is_partial :
  Serves Outage.env Outage.chain /\
  ~ CompleteOrNull Outage.chain Outage.env "token" "0xT" 0 0.
Proof.
  split.
  - intros before f t. simpl.
    destruct (f =? 100000)%Z; [right; eauto | left; reflexivity].
  - intros [H | (totalSupply & endBlock & Hs & He & H)].
    + vm_compute in H. discriminate H.
    + vm_compute in Hs. injection Hs as <-.
      vm_compute in He. injection He as <-.
      vm_compute in H. discriminate H.
Qed.

(** ** Failed log queries *)

Lemma fetchHoldersBy_success size env tokenAddress startBlock decimals
    totalSupply endBlock :
  initProvider env = Ok tt ->
  Contract env tokenAddress = Ok tt ->
  fetchTotalSupply env decimals = Ok totalSupply ->
  provider_getBlockNumber env = Ok endBlock ->
  fetchHoldersBy size env tokenAddress startBlock decimals
  = Some (holdersStats env totalSupply
            (holders (scanLogs env decimals size startBlock endBlock))).
Proof.
  intros H1 H2 H3 H4. unfold fetchHoldersBy.
  rewrite H1, H2, H3, H4. reflexivity.
Qed.

(** The windows start at increasing blocks: none comes twice. *)
Lemma windows_NoDup b e f :
  Forall (fun w => (f <= fst w)%Z) (windows b f e) /\ NoDup (windows b f e).
Proof.
  apply (windows_induction b e
           (fun f ws => Forall (fun w => (f <= fst w)%Z) ws /\ NoDup ws)).
  - intros f' _. split; constructor.
  - intros f' Hle [Hall Hnd]. split.
    + constructor; [simpl; lia|].
      eapply Forall_impl; [|exact Hall]. simpl. intros w Hw. lia.
    + constructor; [|exact Hnd]. intro Hin.
      rewrite Forall_forall in Hall. specialize (Hall _ Hin). simpl in Hall.
      lia.
Qed.

(** C1, as the code has it.  [fetchHolders] queries every window once,
    500 ms after its previous step; a query that fails, rate-limited or not,
    is not made again: its window adds no event, and the scan ends with a
    report. *)
Theorem failed_query_skips_window env tokenSymbol tokenAddress startBlock
    decimals totalSupply endBlock :
  initProvider env = Ok tt ->
  Contract env tokenAddress = Ok tt ->
  fetchTotalSupply env decimals = Ok totalSupply ->
  provider_getBlockNumber env = Ok endBlock ->
  let scan := scanLogs env decimals batchSize startBlock endBlock in
  trace scan = flat_map request (windows batchSize startBlock endBlock) /\
  NoDup (windows batchSize startBlock endBlock) /\
  holders scan
  = replay decimals
      (fetched env (windows batchSize startBlock endBlock) []) [] /\
  exists response,
    getTokenStats env tokenSymbol tokenAddress startBlock decimals
    = Ok (Some response).
Proof.
  intros H1 H2 H3 H4 scan. subst scan. rewrite scanLogs_windows. simpl.
  repeat split.
  - apply windows_NoDup.
  - unfold getTokenStats, getTokenStatsBy, getTokenStatsBody.
    rewrite (fetchHoldersBy_success _ _ _ _ _ _ _ H1 H2 H3 H4).
    destruct (assemble_ok env tokenSymbol
                (holdersStats env totalSupply
                   (holders
                      (scanLogs env decimals batchSize startBlock endBlock))))
      as [response E].
    rewrite E. simpl. eauto.
Qed.

Lemma failed_query_skips_window_witness :
  trace (scanLogs Limited.env 0 batchSize 0 150000)
  = flat_map request (windows batchSize 0 150000) /\
  NoDup (windows batchSize 0 150000) /\
  holders (scanLogs Limited.env 0 batchSize 0 150000)
  = replay 0 (fetched Limited.env (windows batchSize 0 150000) []) [] /\
  exists response, getTokenStats Limited.env "token" "0xT" 0 0 = Ok (Some response).
Proof.
  apply (failed_query_skips_window Limited.env "token" "0xT" 0 0 1000 150000);
    reflexivity.
Defined.

(** C1, as stated, fails: every log query of [Limited] is rate-limited,
    each of its two windows is queried once, and a report is returned. *)
Lemma rate_limited_scan_completes :
  ~ RateLimitAborts Limited.env "token" "0xT" 0 0.
Proof.
  intro H.
  assert (E : exists response,
             getTokenStats Limited.env "token" "0xT" 0 0 = Ok (Some response))
    by (vm_compute; eauto).
  destruct E as [response E].
  apply (H 150000%Z eq_refl) with (response := response).
  - lia.
  - intros before f t. exists (Some 1%Z). reflexivity.
  - exact E.
Qed.



(** C4. The scenario of three events, with no decimals and a total supply
    of 1000: the ledger ends with A = 600, B = 300 and C = 100 (and the
    zero address at -1000); the report counts 3 wallets, an average of
    333.33, a median of 300.00 and a top-10 concentration of 100.00. *)
Theorem end_to_end_scenario :
  let ledger := holders (scanLogs Fixture.env 0 batchSize 0 2) in
  ledger = [(Fixture.zero, -1000); (Fixture.A, 600); (Fixture.B, 300);
            (Fixture.C, 100)] /\
  get Fixture.A ledger = Some 600 /\
  get Fixture.B ledger = Some 300 /\
  get Fixture.C ledger = Some 100 /\
  exists response,
    getTokenStats Fixture.env "token" "0xT" 0 0 = Ok (Some response) /\
    let stats := TokenStatsResponse.stats response in
    let tokenStats := TokenStatsResponse.tokenStats response in
    Stats.totalWallets stats = 3%Z /\
    Stats.averageBalance stats = "333.33" /\
    Stats.medianBalance stats = "300.00" /\
    TokenStats.topHoldersProportion tokenStats = Str "100.00" /\
    TokenStats.totalSupply tokenStats = 1000 /\
    map TopHolder.address (TokenStats.topHolders tokenStats)
    = [Fixture.A; Fixture.B; Fixture.C].
Proof.
  vm_compute. do 4 (split; [reflexivity|]).
  eexists. split; [reflexivity|]. repeat split.
Qed.

(** ** Bounds of the concentration *)

Lemma Qgtb_true a b : Qgtb a b = true -> b < a.
Proof.
  unfold Qgtb. intro H. apply Qnot_le_lt. intro Hle.
  apply Qle_bool_iff in Hle. rewrite Hle in H. discriminate H.
Qed.

Lemma Qgtb_false a b : Qgtb a b = false -> a <= b.
Proof.
  unfold Qgtb. intro H. apply Qle_bool_iff.
  destruct (Qle_bool a b); [reflexivity | discriminate H].
Qed.

Lemma insertDesc_Forall {A} (key : A -> Q) (P : A -> Prop) x l :
  P x -> Forall P l -> Forall P (insertDesc key x l).
Proof.
  intros Hx Hl. induction Hl as [|y l Hy Hl IH]; simpl.
  - constructor; [exact Hx | constructor].
  - destruct (Qgtb (key y) (key x)); repeat constructor; assumption.
Qed.

Lemma sortDesc_Forall {A} (key : A -> Q) (P : A -> Prop) l :
  Forall P l -> Forall P (sortDesc key l).
Proof.
  intro H. induction H as [|x l Hx Hl IH]; [constructor|].
  apply insertDesc_Forall; assumption.
Qed.

Lemma firstn_Forall {A} (P : A -> Prop) n l :
  Forall P l -> Forall P (firstn n l).
Proof.
  intro H. revert n. induction H as [|x l Hx Hl IH]; intros [|n]; simpl;
    constructor; auto.
Qed.



(** The holders that pass the filter are above the threshold. *)
Lemma filterHolders_above ledger :
  Forall (fun e => minBalanceThreshold < snd e) (filterHolders ledger).
Proof.
  unfold filterHolders. apply sortDesc_Forall.
  apply Forall_forall. intros e He. apply filter_In in He.
  apply Qgtb_true, He.
Qed.






(** ** The total supply over binary64 *)

(** [Math.round] of a finite number: the number of the integer
    [floor (x + 1/2)], which is that integer when it is below 2^53. *)
Lemma Math_round_integer x :
  IEEE.isFinite x = true ->
  let n := Qfloor (IEEE.real x + (1 # 2)) in
  IEEE.real x - (1 # 2) < inject_Z n <= IEEE.real x + (1 # 2) /\
  (n = 0%Z -> exists s, IEEE.Math_round x = S754_zero s) /\
  (n <> 0%Z -> IEEE.Math_round x = IEEE.ofZ n) /\
  ((Z.abs n < 2 ^ 53)%Z -> IEEE.real (IEEE.Math_round x) == inject_Z n) /\
  ((0 < n < 2 ^ 53)%Z -> IEEE.gt (IEEE.Math_round x) IEEE.zero = true).
Proof.
  intros Hx n.
  assert (Hn : IEEE.real x - (1 # 2) < inject_Z n <= IEEE.real x + (1 # 2)).
  { subst n.
    pose proof (Qfloor_le (IEEE.real x + (1 # 2))) as Hle.
    pose proof (Qlt_floor (IEEE.real x + (1 # 2))) as Hlt.
    rewrite inject_Z_plus in Hlt. change (inject_Z 1) with 1 in Hlt.
    split; lra. }
  split; [exact Hn|].
  destruct x as [s | s | | s m e]; try discriminate Hx.
  - assert (E : n = 0%Z) by reflexivity.
    split; [intros _; exists s; reflexivity|].
    split; [intro H; contradiction|].
    split; [intros _; rewrite E; reflexivity | intro H; lia].
  - unfold IEEE.Math_round. fold n.
    destruct (Z.eqb_spec n 0) as [E|E].
    + split; [intros _; exists s; reflexivity|].
      split; [intro H; contradiction|].
      split; [intros _; rewrite E; reflexivity | intro H; lia].
    + split; [intro H; contradiction|].
      split; [reflexivity|].
      split; [apply real_ofZ | apply ofZ_positive].
Qed.

(** C10, as the code has it.  The total supply of a report is
    [Math.round] of the number that [parseFloat] reads from the supply of
    the contract printed in token units: for a finite number x, the number
    of the integer n = floor (x + 1/2), which is within 1/2 of x and, below
    2^53, is n itself; a number that is not finite is kept.  The
    proportion of a report with holders is the top-10 sum divided by that
    total supply and multiplied by 100, printed with two decimals, when the
    total supply is above 0, and ["0.00"] otherwise; the report without
    holders has the number 0. *)
Theorem totalSupply_rounded env tokenAddress startBlock decimals stats :
  IEEE.fetchHolders env tokenAddress startBlock decimals = Some stats ->
  let totalSupply := IEEE.HoldersStats.totalSupply stats in
  let proportion := IEEE.HoldersStats.topHoldersProportion stats in
  exists supply units,
    contract_totalSupply env = Ok supply /\
    IEEE.formatUnits supply decimals = Ok units /\
    let x := IEEE.parseFloat units in
    totalSupply = IEEE.Math_round x /\
    (IEEE.isFinite x = true ->
     let n := Qfloor (IEEE.real x + (1 # 2)) in
     IEEE.real x - (1 # 2) < inject_Z n <= IEEE.real x + (1 # 2) /\
     (n = 0%Z -> exists s, totalSupply = S754_zero s) /\
     (n <> 0%Z -> totalSupply = IEEE.ofZ n) /\
     ((Z.abs n < 2 ^ 53)%Z -> IEEE.real totalSupply == inject_Z n) /\
     ((0 < n < 2 ^ 53)%Z -> IEEE.gt totalSupply IEEE.zero = true)) /\
    (IEEE.isFinite x = false -> totalSupply = x) /\
    (IEEE.HoldersStats.filteredHolders stats = [] ->
     proportion = IEEE.Num IEEE.zero) /\
    (IEEE.HoldersStats.filteredHolders stats <> [] ->
     (IEEE.gt totalSupply IEEE.zero = true ->
      proportion
      = IEEE.Str
          (IEEE.toFixed2
             (IEEE.mul (IEEE.div (topBalance stats) totalSupply)
                IEEE.hundred))) /\
     (IEEE.gt totalSupply IEEE.zero = false -> proportion = IEEE.Str "0.00")).
Proof.
  intros H totalSupply proportion. subst totalSupply proportion.
  unfold IEEE.fetchHolders, IEEE.fetchHoldersBy in H.
  destruct (initProvider env); [|discriminate H].
  destruct (Contract env tokenAddress); [|discriminate H].
  destruct (IEEE.fetchTotalSupply env decimals) as [ts|] eqn:Hts;
    [|discriminate H].
  destruct (provider_getBlockNumber env) as [endBlock|]; [|discriminate H].
  injection H as <-.
  unfold IEEE.fetchTotalSupply in Hts.
  destruct (contract_totalSupply env) as [supply|]; simpl in Hts;
    [|discriminate Hts].
  destruct (IEEE.formatUnits supply decimals) as [units|] eqn:Hu;
    simpl in Hts; [|discriminate Hts].
  injection Hts as <-.
  exists supply, units. split; [reflexivity|]. split; [exact Hu|].
  intro x. fold x.
  set (ledger := IEEE.holders (IEEE.scanLogs env decimals batchSize startBlock
                                 endBlock)).
  unfold topBalance, IEEE.holdersStats.
  destruct (Z.of_nat (List.length (IEEE.filterHolders ledger)) =? 0)%Z eqn:E;
    cbn [IEEE.HoldersStats.totalSupply IEEE.HoldersStats.topHoldersProportion
         IEEE.HoldersStats.topHolders IEEE.HoldersStats.filteredHolders].
  - split; [reflexivity|]. split; [apply Math_round_integer|].
    split; [destruct x; (discriminate || reflexivity)|].
    split; [reflexivity|]. intro Hne. contradiction Hne. reflexivity.
  - split; [reflexivity|]. split; [apply Math_round_integer|].
    split; [destruct x; (discriminate || reflexivity)|]. split.
    + intro Hnil. rewrite Hnil in E. discriminate E.
    + intros _. unfold IEEE.totalTopHoldersBalance.
      split; intro Hgt; rewrite Hgt; reflexivity.
Qed.

Lemma totalSupply_rounded_witness :
  exists stats,
    IEEE.fetchHolders Fractional.env "0xT" 0 1 = Some stats /\
    IEEE.real (IEEE.HoldersStats.totalSupply stats) == 1 /\
    IEEE.HoldersStats.topHoldersProportion stats = IEEE.Str "140.00".
Proof.
  assert (E : exists stats,
             IEEE.fetchHolders Fractional.env "0xT" 0 1 = Some stats)
    by (vm_compute; eauto).
  destruct E as [stats E]. exists stats. split; [exact E|].
  destruct (totalSupply_rounded _ _ _ _ _ E)
    as (supply & units & Hs & Hu & _ & Hn & _ & _ & Hp).
  simpl in Hs. injection Hs as <-.
  vm_compute in Hu. injection Hu as <-.
  destruct (Hn eq_refl) as (_ & _ & _ & Hreal & Hgt).
  split; [apply Hreal; vm_compute; reflexivity|].
  assert (Hne : IEEE.HoldersStats.filteredHolders stats <> []).
  { vm_compute in E. injection E as <-. discriminate. }
  destruct (Hp Hne) as [Hstr _].
  rewrite (Hstr (Hgt ltac:(vm_compute; split; reflexivity))).
  vm_compute in E. injection E as <-. reflexivity.
Defined.

(** C10, as stated, fails: a supply of 0.49999999999999999 is read by
    [parseFloat] as 0.5, which [Math.round] takes to 1 although the nearest
    whole unit is 0; the only holder has 0.5 and the proportion is 50.00. *)
Lemma half_token_supply_is_one :
  ~ NearestWholeUnit HalfToken.env "0xT" 0 17 /\
  exists stats,
    IEEE.fetchHolders HalfToken.env "0xT" 0 17 = Some stats /\
    IEEE.HoldersStats.totalSupply stats = IEEE.ofZ 1 /\
    IEEE.HoldersStats.topHoldersProportion stats = IEEE.Str "50.00".
Proof.
  assert (E : exists stats,
             IEEE.fetchHolders HalfToken.env "0xT" 0 17 = Some stats /\
             IEEE.HoldersStats.totalSupply stats = IEEE.ofZ 1 /\
             IEEE.HoldersStats.topHoldersProportion stats = IEEE.Str "50.00")
    by (vm_compute; eexists; repeat split).
  split; [|exact E].
  destruct E as (stats & E & Hts & _).
  intro H. specialize (H 49999999999999999%Z stats eq_refl E).
  rewrite Hts in H. destruct H as [_ H]. vm_compute in H. apply H. reflexivity.
Qed.

(** ** The groups of [calculateStats] *)

Lemma slice_firstn_skipn {A} (l : list A) s e :
  (0 <= s <= e)%Z -> (e <= Z.of_nat (List.length l))%Z ->
  slice s e l = firstn (Z.to_nat (e - s)) (skipn (Z.to_nat s) l).
Proof.
  intros H1 H2. unfold slice, sliceIndex.
  destruct (Z.ltb_spec s 0); [lia|]. destruct (Z.ltb_spec e 0); [lia|].
  rewrite !Z.min_l by lia. reflexivity.
Qed.

Lemma firstn_add {A} (l : list A) m k :
  (firstn m l ++ firstn k (skipn m l))%list = firstn (m + k) l.
Proof.
  revert l. induction m as [|m IH]; intro l; [reflexivity|].
  destruct l as [|x l]; simpl.
  - rewrite firstn_nil. reflexivity.
  - rewrite IH. reflexivity.
Qed.

(** Two ranges that follow each other make one range. *)
Lemma slice_app {A} (l : list A) a b c :
  (0 <= a <= b)%Z -> (b <= c)%Z -> (c <= Z.of_nat (List.length l))%Z ->
  (slice a b l ++ slice b c l)%list = slice a c l.
Proof.
  intros H1 H2 H3. rewrite !slice_firstn_skipn by lia.
  replace (Z.to_nat b) with (Z.to_nat (b - a) + Z.to_nat a)%nat by lia.
  rewrite <- skipn_skipn, firstn_add. f_equal. lia.
Qed.

Lemma slice_length {A} (l : list A) s e :
  (0 <= s <= e)%Z -> (e <= Z.of_nat (List.length l))%Z ->
  Z.of_nat (List.length (slice s e l)) = (e - s)%Z.
Proof.
  intros H1 H2. rewrite slice_firstn_skipn by assumption.
  rewrite length_firstn, length_skipn. lia.
Qed.

(** The bounds of the groups, in order. *)
Lemma range_bounds n :
  (0 <= n)%Z ->
  (0 * n / 100 = 0 /\ 0 <= 10 * n / 100 <= 25 * n / 100 /\
   25 * n / 100 <= 50 * n / 100 <= 80 * n / 100 /\ 80 * n / 100 <= n)%Z.
Proof. intro H. Z.to_euclidean_division_equations. lia. Qed.

Lemma groupsOf_length n rank :
  (0 <= rank < n)%Z ->
  List.length (groupsOf n rank)
  = if (rank <? 80 * n / 100)%Z then 1%nat else 0%nat.
Proof.
  intro H. unfold groupsOf, walletGroups, inGroup.
  cbn [filter WalletGroup.rangeStart WalletGroup.rangeEnd].
  rewrite !rangeIndex_div.
  destruct (range_bounds n) as (E0 & H1 & H2 & H3); [lia|]. rewrite E0.
  destruct (Z.ltb_spec rank (80 * n / 100));
    destruct (Z.ltb_spec rank (50 * n / 100));
    destruct (Z.ltb_spec rank (25 * n / 100));
    destruct (Z.ltb_spec rank (10 * n / 100));
    destruct (Z.leb_spec 0 rank);
    destruct (Z.leb_spec (10 * n / 100) rank);
    destruct (Z.leb_spec (25 * n / 100) rank);
    destruct (Z.leb_spec (50 * n / 100) rank);
    try lia; reflexivity.
Qed.

Lemma walletsInRange_slice sorted g :
  walletsInRange sorted g
  = slice (WalletGroup.rangeStart g * Z.of_nat (List.length sorted) / 100)
          (WalletGroup.rangeEnd g * Z.of_nat (List.length sorted) / 100)
          sorted.
Proof. unfold walletsInRange. rewrite !rangeIndex_div. reflexivity. Qed.

(** The groups, one after the other, are the first 80% of the ranks. *)
Lemma groups_concat (sorted : list Holder.t) :
  List.concat (map (walletsInRange sorted) walletGroups)
  = firstn (Z.to_nat (80 * Z.of_nat (List.length sorted) / 100)) sorted.
Proof.
  unfold walletGroups. cbn [map List.concat]. rewrite !walletsInRange_slice.
  cbn [WalletGroup.rangeStart WalletGroup.rangeEnd].
  set (n := Z.of_nat (List.length sorted)).
  destruct (range_bounds n) as (E0 & H1 & H2 & H3); [subst n; lia|].
  rewrite app_nil_r, !app_assoc.
  rewrite !slice_app by (fold n; lia).
  rewrite slice_firstn_skipn by (fold n; lia).
  rewrite E0. simpl. rewrite Z.sub_0_r. reflexivity.
Qed.

Lemma groups_count (sorted : list Holder.t) totalTokens :
  map GroupStat.walletsCount (map (groupStat sorted totalTokens) walletGroups)
  = map (groupWidth (Z.of_nat (List.length sorted))) walletGroups.
Proof.
  rewrite map_map. apply map_ext_in. intros g Hg.
  unfold groupStat. cbn [GroupStat.walletsCount].
  rewrite walletsInRange_slice. unfold groupWidth.
  set (n := Z.of_nat (List.length sorted)).
  destruct (range_bounds n) as (E0 & H1 & H2 & H3); [subst n; lia|].
  unfold walletGroups in Hg. simpl in Hg.
  destruct Hg as [<-|[<-|[<-|[<-|[]]]]];
    cbn [WalletGroup.rangeStart WalletGroup.rangeEnd];
    apply slice_length; fold n; lia.
Qed.

(** C2, as the code has it.  The ranges of the four groups follow each
    other from rank 0 and end at rank floor(80% of the wallets): a rank
    below that bound is in exactly one group, a rank from that bound on is
    in none, and the counts reported by [calculateStats] are the widths of
    the ranges, which add up to that bound. *)
Theorem buckets_cover_top_ranks holdersArray :
  let sorted := sortDesc Holder.balance holdersArray in
  let totalWallets := Z.of_nat (List.length holdersArray) in
  let covered := (80 * totalWallets / 100)%Z in
  (forall rank,
     (0 <= rank < totalWallets)%Z ->
     List.length (groupsOf totalWallets rank)
     = if (rank <? covered)%Z then 1%nat else 0%nat) /\
  List.concat (map (walletsInRange sorted) walletGroups)
  = firstn (Z.to_nat covered) sorted /\
  exists stats,
    calculateStats holdersArray = Ok stats /\
    Stats.totalWallets stats = totalWallets /\
    map GroupStat.walletsCount (Stats.groupStats stats)
    = map (groupWidth totalWallets) walletGroups /\
    fold_right Z.add 0%Z (map GroupStat.walletsCount (Stats.groupStats stats))
    = covered.
Proof.
  intros sorted totalWallets covered.
  assert (En : Z.of_nat (List.length sorted) = totalWallets)
    by (subst sorted; rewrite sortDesc_length; reflexivity).
  split; [|split].
  - intros rank H. apply groupsOf_length, H.
  - rewrite groups_concat, En. reflexivity.
  - unfold calculateStats. fold sorted.
    destruct (median_ok sorted) as [m ->]. cbn [bind].
    eexists. split; [reflexivity|].
    cbn [Stats.totalWallets Stats.groupStats].
    rewrite groups_count, En. repeat split.
    unfold walletGroups, groupWidth.
    cbn [map fold_right WalletGroup.rangeStart WalletGroup.rangeEnd].
    subst covered. change (0 * totalWallets / 100)%Z with 0%Z. ring.
Qed.

Lemma buckets_cover_top_ranks_witness :
  let holdersArray :=
    [ {| Holder.holder := Fixture.A; Holder.balance := 600 |};
      {| Holder.holder := Fixture.B; Holder.balance := 300 |};
      {| Holder.holder := Fixture.C; Holder.balance := 100 |} ] in
  List.length (groupsOf 3 1) = 1%nat /\ List.length (groupsOf 3 2) = 0%nat.
Proof.
  intro holdersArray.
  destruct (buckets_cover_top_ranks holdersArray) as (H & _).
  split; [apply (H 1%Z) | apply (H 2%Z)]; simpl; lia.
Defined.

(** C2, as stated, fails: of a single holder, rank 0 is in no group, and
    the four counts of [calculateStats] are 0. *)
Lemma single_holder_in_no_bucket :
  ~ BucketsPartition [ {| Holder.holder := Fixture.A; Holder.balance := 600 |} ]
  /\ exists stats,
       calculateStats
         [ {| Holder.holder := Fixture.A; Holder.balance := 600 |} ] = Ok stats /\
       Stats.totalWallets stats = 1%Z /\
       map GroupStat.walletsCount (Stats.groupStats stats)
       = [0; 0; 0; 0]%Z.
Proof.
  split.
  - intro H. specialize (H 0%Z). simpl in H.
    assert (E : List.length (groupsOf 1 0) = 1%nat) by (apply H; lia).
    vm_compute in E. discriminate E.
  - vm_compute. eexists. repeat split.
Qed.

(** * Properties of the rest of the module *)

(** ** Reading and writing the ledger *)

Lemma has_In k m : has k m = true <-> In k (map fst m).
Proof.
  induction m as [|[k' v'] m IH]; simpl; [split; [discriminate | tauto]|].
  destruct (String.eqb_spec k k') as [->|Hk].
  - split; auto.
  - rewrite IH. split; [auto | intros [E|H]; [congruence | exact H]].
Qed.

Lemma keys_set k v m :
  map fst (set k v m)
  = if has k m then map fst m else (map fst m ++ [k])%list.
Proof.
  induction m as [|[k' v'] m IH]; simpl; [reflexivity|].
  destruct (String.eqb_spec k k') as [->|Hk]; simpl; [reflexivity|].
  rewrite IH. destruct (has k m); reflexivity.
Qed.

Lemma NoDup_set k v m : NoDup (map fst m) -> NoDup (map fst (set k v m)).
Proof.
  intro H. rewrite keys_set. destruct (has k m) eqn:E; [exact H|].
  apply NoDup_app; [exact H | repeat constructor; simpl; tauto |].
  intros x Hx [<-|[]]. apply has_In in Hx. congruence.
Qed.

Lemma In_keys_set a k v m :
  In a (map fst (set k v m)) <-> a = k \/ In a (map fst m).
Proof.
  rewrite keys_set. destruct (has k m) eqn:E.
  - apply has_In in E. split; [auto | intros [->|H]; assumption].
  - rewrite in_app_iff. simpl. intuition congruence.
Qed.

Lemma applyEvent_applied d h e :
  applyEvent d h e
  = match applied d e with
    | Some t => transfer (fst (fst t)) (snd (fst t)) (snd t) h
    | None => h
    end.
Proof.
  destruct e as [|f t v tx]; simpl; [reflexivity|].
  destruct (truthyString f), (truthyString t), (truthyValue v);
    try reflexivity.
  destruct (formatUnits z d); reflexivity.
Qed.

Lemma NoDup_transfer f t v h :
  NoDup (map fst h) -> NoDup (map fst (transfer f t v h)).
Proof.
  intro H. unfold transfer. apply NoDup_set, NoDup_set.
  destruct (has t _); [|apply NoDup_set];
    (destruct (has f h); [exact H | apply NoDup_set, H]).
Qed.

Lemma In_keys_transfer a f t v h :
  In a (map fst (transfer f t v h)) <-> a = f \/ a = t \/ In a (map fst h).
Proof.
  unfold transfer. rewrite !In_keys_set.
  set (h1 := if has f h then h else set f 0 h).
  assert (E1 : In a (map fst h1) <-> a = f /\ has f h = false \/ In a (map fst h)).
  { subst h1. destruct (has f h) eqn:E.
    - intuition congruence.
    - rewrite In_keys_set. intuition. }
  destruct (has t h1) eqn:E2.
  - rewrite E1. intuition.
  - rewrite In_keys_set, E1. intuition.
Qed.

(** ** The addresses of the ledger *)

Lemma NoDup_replay d events h :
  NoDup (map fst h) -> NoDup (map fst (replay d events h)).
Proof.
  unfold replay. revert h.
  induction events as [|e events IH]; intros h H; simpl; [exact H|].
  apply IH. rewrite applyEvent_applied.
  destruct (applied d e); [apply NoDup_transfer|]; exact H.
Qed.

Lemma In_keys_replay d events a :
  forall h,
    In a (map fst (replay d events h))
    <-> In a (map fst h)
        \/ exists e f t v,
             In e events /\ applied d e = Some (f, t, v) /\ (a = f \/ a = t).
Proof.
  unfold replay.
  induction events as [|e events IH]; intro h; simpl.
  - split; [auto | intros [H|(e & f & t & v & [] & _)]; exact H].
  - rewrite IH, applyEvent_applied.
    destruct (applied d e) as [[[f t] v]|] eqn:E; cbn [fst snd].
    + rewrite In_keys_transfer. split.
      * intros [[->|[->|H]]|(e' & f' & t' & v' & Hin & Ha & Hor)].
        -- right. exists e, f, t, v. auto.
        -- right. exists e, f, t, v. auto.
        -- left. exact H.
        -- right. exists e', f', t', v'. auto.
      * intros [H|(e' & f' & t' & v' & [<-|Hin] & Ha & Hor)].
        -- left. auto.
        -- left. rewrite E in Ha. injection Ha as <- <- <-.
           destruct Hor; auto.
        -- right. exists e', f', t', v'. auto.
    + split.
      * intros [H|(e' & f' & t' & v' & Hin & Ha & Hor)];
          [left; exact H | right; exists e', f', t', v'; auto].
      * intros [H|(e' & f' & t' & v' & [<-|Hin] & Ha & Hor)];
          [left; exact H | congruence | right; exists e', f', t', v'; auto].
Qed.

(** X3. The ledger of a scan lists every address once, and lists exactly
    the senders and receivers of the events that were applied: an event that
    is skipped adds no address, and no address comes from elsewhere. *)
Theorem ledger_addresses decimals events :
  NoDup (map fst (replay decimals events [])) /\
  forall a,
    In a (map fst (replay decimals events []))
    <-> exists e f t v,
          In e events /\ applied decimals e = Some (f, t, v) /\
          (a = f \/ a = t).
Proof.
  split.
  - apply NoDup_replay. constructor.
  - intro a. rewrite In_keys_replay. simpl. tauto.
Qed.

(** X4. The events that are skipped can be taken out of the stream: the
    ledger, the order of its addresses included, is that of the applied
    events alone. *)
Theorem skipped_events_leave_no_trace decimals events ledger :
  replay decimals events ledger
  = replay decimals (filter (isApplied decimals) events) ledger.
Proof.
  unfold replay. revert ledger.
  induction events as [|e events IH]; intro ledger; simpl; [reflexivity|].
  unfold isApplied at 1. rewrite applyEvent_applied.
  destruct (applied decimals e) as [t|] eqn:E; simpl.
  - rewrite applyEvent_applied, E. apply IH.
  - apply IH.
Qed.

(** ** Sorting by decreasing balance *)

Lemma Qgtb_iff a b : Qgtb a b = true <-> b < a.
Proof.
  split; [apply Qgtb_true|]. intro H. unfold Qgtb.
  destruct (Qle_bool a b) eqn:E; [|reflexivity].
  apply Qle_bool_iff in E. lra.
Qed.

Lemma insertDesc_Permutation {A} (key : A -> Q) x l :
  Permutation (insertDesc key x l) (x :: l).
Proof.
  induction l as [|y l IH]; simpl; [reflexivity|].
  destruct (Qgtb (key y) (key x)); [|reflexivity].
  rewrite IH. apply perm_swap.
Qed.

Lemma sortDesc_Permutation {A} (key : A -> Q) l :
  Permutation (sortDesc key l) l.
Proof.
  induction l as [|x l IH]; simpl; [reflexivity|].
  unfold sortDesc in *. rewrite insertDesc_Permutation, IH. reflexivity.
Qed.

Lemma insertDesc_sorted {A} (key : A -> Q) x l :
  StronglySorted (descBy key) l ->
  StronglySorted (descBy key) (insertDesc key x l).
Proof.
  intro H. induction H as [|y l Hs IH Hall]; simpl.
  - repeat constructor.
  - destruct (Qgtb (key y) (key x)) eqn:E.
    + apply Qgtb_true in E. constructor; [exact IH|].
      rewrite insertDesc_Permutation.
      constructor; [unfold descBy; lra | exact Hall].
    + apply Qgtb_false in E. constructor; [constructor; assumption|].
      constructor; [exact E|].
      eapply Forall_impl; [|exact Hall]. unfold descBy. intros z Hz. lra.
Qed.

Lemma sortDesc_sorted {A} (key : A -> Q) l :
  StronglySorted (descBy key) (sortDesc key l).
Proof.
  induction l as [|x l IH]; simpl; [constructor|].
  apply insertDesc_sorted, IH.
Qed.

(** Sorting an array that is sorted leaves it as it is. *)
Lemma sortDesc_of_sorted {A} (key : A -> Q) l :
  StronglySorted (descBy key) l -> sortDesc key l = l.
Proof.
  intro H. induction H as [|x l Hs IH Hall]; simpl; [reflexivity|].
  unfold sortDesc in *. rewrite IH.
  destruct Hall as [|y l Hy Hall]; simpl; [reflexivity|].
  unfold descBy in Hy.
  assert (E : Qgtb (key y) (key x) = false).
  { destruct (Qgtb (key y) (key x)) eqn:E; [|reflexivity].
    apply Qgtb_true in E. lra. }
  rewrite E. reflexivity.
Qed.

Lemma StronglySorted_app_order {A} (R : A -> A -> Prop) l1 l2 :
  StronglySorted R (l1 ++ l2) ->
  forall x y, In x l1 -> In y l2 -> R x y.
Proof.
  induction l1 as [|a l1 IH]; simpl; intros H x y Hx Hy; [destruct Hx|].
  inversion H as [|? ? Hs Hall]; subst.
  destruct Hx as [<-|Hx].
  - rewrite Forall_forall in Hall. apply Hall, in_or_app. right. exact Hy.
  - apply IH; assumption.
Qed.

Lemma slice_0_10 {A} (l : list A) : slice 0 10 l = firstn 10 l.
Proof.
  unfold slice, sliceIndex.
  destruct (Z.ltb_spec 0 0); [lia|]. destruct (Z.ltb_spec 10 0); [lia|].
  rewrite (Z.min_l 0) by lia. rewrite Z.sub_0_r. simpl (Z.to_nat 0).
  rewrite skipn_0.
  destruct (Z.min_spec 10 (Z.of_nat (List.length l))) as [[Hm ->]|[Hm ->]].
  - reflexivity.
  - rewrite Nat2Z.id, firstn_all. symmetry. apply firstn_all2. lia.
Qed.

(** X5. [filteredHolders] holds exactly the entries of the ledger whose
    balance is above 0.01, each as often as the ledger has it, in
    non-increasing order of balance. *)
Theorem filtered_holders_sorted ledger :
  let filtered := filterHolders ledger in
  Permutation filtered
    (filter (fun e => Qgtb (snd e) minBalanceThreshold) ledger) /\
  StronglySorted (descBy snd) filtered /\
  (forall address balance,
     In (address, balance) filtered
     <-> In (address, balance) ledger /\ 1 # 100 < balance).
Proof.
  intro filtered. subst filtered. unfold filterHolders.
  split; [apply sortDesc_Permutation|].
  split; [apply sortDesc_sorted|].
  intros address balance. split.
  - intro H. apply (Permutation_in _ (sortDesc_Permutation snd _)) in H.
    apply filter_In in H. destruct H as [H1 H2]. split; [exact H1|].
    apply Qgtb_true in H2. exact H2.
  - intros [H1 H2].
    apply (Permutation_in _ (Permutation_sym (sortDesc_Permutation snd _))).
    apply filter_In. split; [exact H1|]. apply Qgtb_iff. exact H2.
Qed.

Lemma classify_fields env e :
  TopHolder.address (classify env e) = fst e /\
  TopHolder.balance (classify env e) = snd e /\
  TopHolder.type (classify env e) = kindOf env (fst e).
Proof.
  unfold classify, kindOf.
  destruct (provider_getCode env (fst e)); repeat split.
Qed.

Lemma holdersStats_fields env totalSupply ledger :
  HoldersStats.filteredHolders (holdersStats env totalSupply ledger)
  = filterHolders ledger /\
  HoldersStats.topHolders (holdersStats env totalSupply ledger)
  = map (classify env) (firstn 10 (filterHolders ledger)) /\
  HoldersStats.totalSupply (holdersStats env totalSupply ledger) = totalSupply.
Proof.
  unfold holdersStats. rewrite slice_0_10.
  destruct (filterHolders ledger) as [|e l] eqn:E; simpl; repeat split.
Qed.

(** X6. The top holders are the first ten entries of [filteredHolders], or
    all of them when there are fewer, with their balances; no other holder
    that passed the filter has more than any of them; and a code lookup that
    fails leaves the holder in place, with the kind [unknown]. *)
Theorem top_holders_are_largest env totalSupply ledger :
  let stats := holdersStats env totalSupply ledger in
  let top := HoldersStats.topHolders stats in
  map (fun h => (TopHolder.address h, TopHolder.balance h)) top
  = firstn 10 (filterHolders ledger) /\
  List.length top = Nat.min 10 (List.length (filterHolders ledger)) /\
  Forall (fun h => TopHolder.type h = kindOf env (TopHolder.address h)) top /\
  (forall h e,
     In h top -> In e (skipn 10 (filterHolders ledger)) ->
     snd e <= TopHolder.balance h).
Proof.
  intros stats top. subst top stats.
  destruct (holdersStats_fields env totalSupply ledger) as (_ & -> & _).
  split; [|split; [|split]].
  - rewrite map_map. rewrite <- (map_id (firstn 10 (filterHolders ledger))) at 2.
    apply map_ext. intros [a b].
    destruct (classify_fields env (a, b)) as (-> & -> & _). reflexivity.
  - rewrite length_map, length_firstn. reflexivity.
  - apply Forall_map, Forall_forall. intros e _.
    destruct (classify_fields env e) as (-> & _ & ->). reflexivity.
  - intros h e Hh He. apply in_map_iff in Hh. destruct Hh as (e' & <- & He').
    destruct (classify_fields env e') as (_ & -> & _).
    pose proof (sortDesc_sorted snd
                  (filter (fun e => Qgtb (snd e) minBalanceThreshold) ledger))
      as Hs.
    fold (filterHolders ledger) in Hs.
    rewrite <- (firstn_skipn 10 (filterHolders ledger)) in Hs.
    apply (StronglySorted_app_order _ _ _ Hs e' e He' He).
Qed.

(** ** What a report is made of *)

Lemma calculateStats_inv holdersArray stats :
  calculateStats holdersArray = Ok stats ->
  let sorted := sortDesc Holder.balance holdersArray in
  Stats.totalWallets stats = Z.of_nat (List.length holdersArray) /\
  Stats.groupStats stats
  = map (groupStat sorted (sumBalances holdersArray)) walletGroups /\
  exists m, median sorted = Ok m /\ Stats.medianBalance stats = toFixed2 m.
Proof.
  intros H sorted. unfold calculateStats in H. fold sorted in H.
  destruct (median sorted) as [m|] eqn:E; simpl in H; [|discriminate H].
  injection H as <-. simpl. subst sorted.
  rewrite sortDesc_length. repeat split. eauto.
Qed.

(** A response is made of the ledger of the windows that were fetched. *)
Lemma getTokenStats_inv env tokenSymbol tokenAddress startBlock decimals response :
  getTokenStats env tokenSymbol tokenAddress startBlock decimals
  = Ok (Some response) ->
  exists totalSupply endBlock,
    fetchTotalSupply env decimals = Ok totalSupply /\
    provider_getBlockNumber env = Ok endBlock /\
    let ledger :=
      replay decimals
        (fetched env (windows batchSize startBlock endBlock) []) [] in
    let holdersStats := holdersStats env totalSupply ledger in
    TokenStats.totalSupply (TokenStatsResponse.tokenStats response)
    = totalSupply /\
    TokenStats.marketCap (TokenStatsResponse.tokenStats response)
    = fetchMarketCap env tokenSymbol /\
    TokenStats.topHoldersProportion (TokenStatsResponse.tokenStats response)
    = HoldersStats.topHoldersProportion holdersStats /\
    TokenStats.topHolders (TokenStatsResponse.tokenStats response)
    = map (classify env) (firstn 10 (filterHolders ledger)) /\
    calculateStats (map toHolder (filterHolders ledger))
    = Ok (TokenStatsResponse.stats response).
Proof.
  intro H.
  destruct (getTokenStatsBy_cases batchSize env tokenSymbol tokenAddress
              startBlock decimals)
    as [E | (totalSupply & endBlock & _ & _ & H3 & H4 & E)];
    unfold getTokenStats in H; rewrite E in H; [discriminate H|].
  exists totalSupply, endBlock. split; [exact H3|]. split; [exact H4|].
  rewrite scanLogs_windows in H. cbn [holders] in H.
  intros ledger stats. fold ledger in H. fold stats in H.
  destruct (holdersStats_fields env totalSupply ledger) as (F1 & F2 & F3).
  fold stats in F1, F2, F3.
  unfold assemble in H. rewrite F1 in H.
  change (fun e : string * Q =>
            {| Holder.holder := fst e; Holder.balance := snd e |})
    with toHolder in H.
  destruct (calculateStats (map toHolder (filterHolders ledger)))
    as [st|]; simpl in H; [|discriminate H].
  injection H as <-. simpl. rewrite F2, F3. repeat split.
Qed.

Lemma NoDup_keys_filter (p : string * Q -> bool) (l : Ledger) :
  NoDup (map fst l) -> NoDup (map fst (filter p l)).
Proof.
  induction l as [|e l IH]; simpl; intro H; [constructor|].
  inversion H as [|? ? Hn Hd]; subst.
  destruct (p e); simpl; [|apply IH, Hd].
  constructor; [|apply IH, Hd].
  intro Hin. apply Hn. apply in_map_iff in Hin.
  destruct Hin as (x & Hx & Hin). apply filter_In in Hin.
  apply in_map_iff. exists x. tauto.
Qed.

Lemma NoDup_firstn {A} n (l : list A) : NoDup l -> NoDup (firstn n l).
Proof.
  intro H. rewrite <- (firstn_skipn n l) in H.
  apply NoDup_app_remove_r in H. exact H.
Qed.

Lemma StronglySorted_firstn {A} (R : A -> A -> Prop) n l :
  StronglySorted R l -> StronglySorted R (firstn n l).
Proof.
  intro H. revert n. induction H as [|x l Hs IH Hall]; intros [|n]; simpl;
    try constructor; [apply IH | apply firstn_Forall, Hall].
Qed.

Lemma StronglySorted_map {A B} (f : A -> B) (R : B -> B -> Prop) l :
  StronglySorted (fun x y => R (f x) (f y)) l -> StronglySorted R (map f l).
Proof.
  intro H. induction H as [|x l Hs IH Hall]; simpl; constructor;
    [exact IH | apply Forall_map, Hall].
Qed.

Lemma filterHolders_NoDup ledger :
  NoDup (map fst ledger) -> NoDup (map fst (filterHolders ledger)).
Proof.
  intro H. unfold filterHolders.
  eapply Permutation_NoDup;
    [apply Permutation_map; symmetry; apply sortDesc_Permutation|].
  apply NoDup_keys_filter, H.
Qed.

(** X7. In every report the top holders are as many as the wallets counted
    by the statistics, up to ten; their addresses are distinct, their
    balances are above 0.01 and come in non-increasing order. *)
Theorem report_top_holders env tokenSymbol tokenAddress startBlock decimals
    response :
  getTokenStats env tokenSymbol tokenAddress startBlock decimals
  = Ok (Some response) ->
  let top := TokenStats.topHolders (TokenStatsResponse.tokenStats response) in
  let wallets := Stats.totalWallets (TokenStatsResponse.stats response) in
  Z.of_nat (List.length top) = Z.min 10 wallets /\
  NoDup (map TopHolder.address top) /\
  StronglySorted (descBy TopHolder.balance) top /\
  Forall (fun h => 1 # 100 < TopHolder.balance h) top.
Proof.
  intros H top wallets.
  destruct (getTokenStats_inv _ _ _ _ _ _ H)
    as (totalSupply & endBlock & _ & _ & _ & _ & _ & Htop & Hstats).
  subst top wallets. rewrite Htop.
  destruct (calculateStats_inv _ _ Hstats) as (-> & _).
  set (ledger := replay decimals _ []).
  split; [|split; [|split]].
  - rewrite !length_map, length_firstn. lia.
  - rewrite map_map.
    rewrite (map_ext _ fst)
      by (intro e; destruct (classify_fields env e) as (-> & _); reflexivity).
    rewrite <- firstn_map. apply NoDup_firstn, filterHolders_NoDup.
    apply NoDup_replay. constructor.
  - apply StronglySorted_map.
    apply (StronglySorted_firstn _ 10) with (l := filterHolders ledger).
    pose proof (sortDesc_sorted snd
                  (filter (fun e => Qgtb (snd e) minBalanceThreshold) ledger))
      as Hs.
    eapply StronglySorted_ind
      with (P := StronglySorted
                   (fun x y => descBy TopHolder.balance
                                 (classify env x) (classify env y)));
      [constructor | | exact Hs].
    intros a l _ IH Hall. constructor; [exact IH|].
    eapply Forall_impl; [|exact Hall]. intros b Hb. unfold descBy in *.
    destruct (classify_fields env a) as (_ & -> & _).
    destruct (classify_fields env b) as (_ & -> & _). exact Hb.
  - apply Forall_map, firstn_Forall.
    eapply Forall_impl; [|apply (filterHolders_above ledger)].
    intros e He. destruct (classify_fields env e) as (_ & -> & _). exact He.
Qed.

Lemma report_top_holders_witness :
  exists response,
    getTokenStats Fixture.env "token" "0xT" 0 0 = Ok (Some response) /\
    NoDup (map TopHolder.address
             (TokenStats.topHolders (TokenStatsResponse.tokenStats response))).
Proof.
  assert (E : exists response,
             getTokenStats Fixture.env "token" "0xT" 0 0 = Ok (Some response))
    by (vm_compute; eauto).
  destruct E as [response E]. exists response. split; [exact E|].
  apply (report_top_holders _ _ _ _ _ _ E).
Defined.

(** X8. [calculateStats] sorts an array that [fetchHolders] has sorted:
    its ranks are the positions of [filteredHolders], so the statistics
    and the top holders speak of the same order. *)
Theorem ranks_are_filtered_order ledger :
  sortDesc Holder.balance (map toHolder (filterHolders ledger))
  = map toHolder (filterHolders ledger).
Proof.
  apply sortDesc_of_sorted, StronglySorted_map.
  apply (sortDesc_sorted snd).
Qed.

(** ** The median *)

Lemma sorted_nth_error {A} (key : A -> Q) l :
  StronglySorted (descBy key) l ->
  forall i j a b,
    (i <= j)%nat -> nth_error l i = Some a -> nth_error l j = Some b ->
    key b <= key a.
Proof.
  intro H. induction H as [|x l Hs IH Hall]; intros i j a b Hij Ha Hb.
  - destruct i; discriminate Ha.
  - destruct i as [|i], j as [|j]; simpl in Ha, Hb.
    + injection Ha as <-. injection Hb as <-. lra.
    + injection Ha as <-. apply nth_error_In in Hb.
      rewrite Forall_forall in Hall. apply Hall, Hb.
    + lia.
    + apply (IH i j); [lia | assumption | assumption].
Qed.

Lemma Forall_firstn_nth {A} (P : A -> Prop) k (l : list A) :
  (forall i a, (i < k)%nat -> nth_error l i = Some a -> P a) ->
  Forall P (firstn k l).
Proof.
  revert l. induction k as [|k IH]; intros l H; [constructor|].
  destruct l as [|x l]; simpl; [constructor|].
  constructor; [apply (H O); [lia | reflexivity]|].
  apply IH. intros i a Hi Ha. apply (H (S i)); [lia | exact Ha].
Qed.

Lemma Forall_skipn_nth {A} (P : A -> Prop) k (l : list A) :
  (forall i a, (k <= i)%nat -> nth_error l i = Some a -> P a) ->
  Forall P (skipn k l).
Proof.
  revert l. induction k as [|k IH]; intros l H; simpl.
  - apply Forall_forall. intros a Ha. apply In_nth_error in Ha.
    destruct Ha as [i Hi]. apply (H i); [lia | exact Hi].
  - destruct l as [|x l]; [constructor|].
    apply IH. intros i a Hi Ha. apply (H (S i)); [lia | exact Ha].
Qed.

Lemma index_nth_error {A} (l : list A) i a :
  index l i = Ok a -> (0 <= i)%Z /\ nth_error l (Z.to_nat i) = Some a.
Proof.
  unfold index. destruct (Z.ltb_spec i 0); [discriminate|].
  destruct (nth_error l (Z.to_nat i)); [|discriminate].
  intro E. injection E as <-. split; [lia | reflexivity].
Qed.

(** The median of a sorted array has the upper half of the array at or
    above it and the lower half at or below it. *)
Lemma median_of_sorted sorted m :
  StronglySorted (descBy Holder.balance) sorted ->
  median sorted = Ok m ->
  let n := List.length sorted in
  (n = O -> m = 0) /\
  Forall (fun h => m <= Holder.balance h) (firstn ((n + 1) / 2) sorted) /\
  Forall (fun h => Holder.balance h <= m) (skipn (n / 2) sorted).
Proof.
  intros Hs Hm n. unfold median, Math_floor in Hm.
  change (inject_Z (Z.of_nat (List.length sorted)) / 2)
    with (inject_Z (Z.of_nat (List.length sorted)) / inject_Z 2) in Hm.
  rewrite Qfloor_div in Hm. fold n in Hm.
  assert (Ediv : (Z.of_nat n / 2)%Z = Z.of_nat (n / 2))
    by (rewrite Nat2Z.inj_div; reflexivity).
  pose proof (Nat.div_mod_eq n 2) as Edm.
  pose proof (Nat.mod_upper_bound n 2) as Hub.
  pose proof (Nat.div_mod_eq (n + 1) 2) as Edm1.
  pose proof (Nat.mod_upper_bound (n + 1) 2) as Hub1.
  destruct (Z.eqb_spec (Z.of_nat n) 0) as [E0|N0].
  - injection Hm as <-.
    assert (n = O) by lia. destruct sorted; [|discriminate].
    repeat split; constructor.
  - split; [lia|].
    destruct (Z.eqb_spec (Z.of_nat n mod 2) 0) as [Eeven|Eodd].
    + assert (Hmod : (n mod 2 = 0)%nat).
      { apply Nat2Z.inj. rewrite Nat2Z.inj_mod. exact Eeven. }
      destruct (index sorted (Z.of_nat n / 2 - 1)) as [lo|] eqn:Elo;
        simpl in Hm; [|discriminate Hm].
      destruct (index sorted (Z.of_nat n / 2)) as [hi|] eqn:Ehi;
        simpl in Hm; [|discriminate Hm].
      injection Hm as <-.
      apply index_nth_error in Elo, Ehi.
      destruct Elo as [Hlo0 Elo], Ehi as [_ Ehi]. rewrite Ediv in *.
      replace (Z.to_nat (Z.of_nat (n / 2) - 1)) with (n / 2 - 1)%nat in Elo
        by lia.
      rewrite Nat2Z.id in Ehi.
      pose proof (sorted_nth_error _ _ Hs _ _ _ _
                    (Nat.le_sub_l (n / 2) 1) Elo Ehi) as Hlohi.
      split.
      * apply Forall_firstn_nth. intros i a Hi Ha.
        assert (Hle : (i <= n / 2 - 1)%nat) by lia.
        pose proof (sorted_nth_error _ _ Hs _ _ _ _ Hle Ha Elo).
        apply Qle_shift_div_r; lra.
      * apply Forall_skipn_nth. intros i a Hi Ha.
        pose proof (sorted_nth_error _ _ Hs _ _ _ _ Hi Ehi Ha).
        apply Qle_shift_div_l; lra.
    + assert (Hmod : (n mod 2 = 1)%nat).
      { assert (n mod 2 <> 0)%nat; [|lia].
        intro E. apply Eodd. change 2%Z with (Z.of_nat 2).
        rewrite <- Nat2Z.inj_mod, E. reflexivity. }
      destruct (index sorted (Z.of_nat n / 2)) as [mid|] eqn:Emid;
        simpl in Hm; [|discriminate Hm].
      injection Hm as <-.
      apply index_nth_error in Emid. destruct Emid as [_ Emid].
      rewrite Ediv, Nat2Z.id in Emid.
      split.
      * apply Forall_firstn_nth. intros i a Hi Ha.
        assert (Hle : (i <= n / 2)%nat) by lia.
        apply (sorted_nth_error _ _ Hs _ _ _ _ Hle Ha Emid).
      * apply Forall_skipn_nth. intros i a Hi Ha.
        apply (sorted_nth_error _ _ Hs _ _ _ _ Hi Emid Ha).
Qed.

(** X9. The median that [calculateStats] prints is a median of the
    balances: of the holders in sorted order, the first half (rounded up) have
    at least that balance and the last half (rounded up) have at most that
    balance; with no holder it is 0. *)
Theorem median_splits_holders holdersArray :
  let sorted := sortDesc Holder.balance holdersArray in
  let n := List.length holdersArray in
  exists stats m,
    calculateStats holdersArray = Ok stats /\
    Stats.medianBalance stats = toFixed2 m /\
    (n = O -> m = 0) /\
    Forall (fun h => m <= Holder.balance h) (firstn ((n + 1) / 2) sorted) /\
    Forall (fun h => Holder.balance h <= m) (skipn (n / 2) sorted).
Proof.
  intros sorted n.
  destruct (calculateStats_ok holdersArray) as [stats Hstats].
  destruct (calculateStats_inv _ _ Hstats) as (_ & _ & m & Hm & Hprint).
  exists stats, m. split; [exact Hstats|]. split; [exact Hprint|].
  pose proof (median_of_sorted _ _ (sortDesc_sorted Holder.balance holdersArray)
                Hm) as H.
  rewrite sortDesc_length in H. exact H.
Qed.

(** ** The windows of a scan tile its block range *)

Lemma windowsFrom_length b e f n : List.length (windowsFrom b e f n) = n.
Proof.
  revert f. induction n as [|n IH]; intro f; simpl; [|rewrite IH]; reflexivity.
Qed.

Lemma windows_tile b e f :
  tiles f (windows b f e) e /\
  Forall (fun w => (snd w - fst w < Z.pos b)%Z) (windows b f e).
Proof.
  apply (windows_induction b e
           (fun f ws =>
              tiles f ws e /\ Forall (fun w => (snd w - fst w < Z.pos b)%Z) ws)).
  - intros f' H. split; [simpl; lia | constructor].
  - intros f' Hle [Ht Hall]. split.
    + cbn [tiles fst snd]. split; [reflexivity|]. split; [lia|].
      destruct (Z.min_spec (f' + Z.pos b - 1) e) as [[Hlt ->]|[Hge ->]].
      * replace (f' + Z.pos b - 1 + 1)%Z with (f' + Z.pos b)%Z by ring.
        exact Ht.
      * rewrite windows_nil by lia. simpl. lia.
    + constructor; [simpl; lia | exact Hall].
Qed.

(** X11. The log queries of a scan go through windows that follow each
    other from [startBlock] and end with [endBlock], none wider than the
    batch size, each after a pause of 500 ms; there are
    floor((endBlock - startBlock) / batchSize) + 1 of them, and none when
    [startBlock] is beyond [endBlock]. *)
Theorem scan_windows_tile env decimals size startBlock endBlock :
  exists ws,
    trace (scanLogs env decimals size startBlock endBlock)
    = flat_map request ws /\
    tiles startBlock ws endBlock /\
    Forall (fun w => (snd w - fst w < Z.pos size)%Z) ws /\
    Z.of_nat (List.length ws)
    = if (startBlock <=? endBlock)%Z
      then ((endBlock - startBlock) / Z.pos size + 1)%Z
      else 0%Z.
Proof.
  exists (windows size startBlock endBlock).
  rewrite scanLogs_windows. cbn [trace].
  destruct (windows_tile size endBlock startBlock) as [Ht Hall].
  repeat split; try assumption.
  unfold windows. rewrite windowsFrom_length. unfold windowCount.
  destruct (Z.leb_spec startBlock endBlock); [|reflexivity].
  assert (0 <= (endBlock - startBlock) / Z.pos size)%Z
    by (apply Z.div_pos; lia).
  lia.
Qed.

(** ** The market capitalisation *)

Lemma fetched_withAxios env get ws :
  forall tr, fetched (withAxios env get) ws tr = fetched env ws tr.
Proof.
  induction ws as [|w ws IH]; intro tr; simpl; [reflexivity|].
  rewrite IH. reflexivity.
Qed.

Lemma fetchHoldersBy_withAxios size env get tokenAddress startBlock decimals :
  fetchHoldersBy size (withAxios env get) tokenAddress startBlock decimals
  = fetchHoldersBy size env tokenAddress startBlock decimals.
Proof.
  unfold fetchHoldersBy.
  change (initProvider (withAxios env get)) with (initProvider env).
  destruct (initProvider env); [|reflexivity].
  change (Contract (withAxios env get) tokenAddress)
    with (Contract env tokenAddress).
  destruct (Contract env tokenAddress); [|reflexivity].
  change (fetchTotalSupply (withAxios env get) decimals)
    with (fetchTotalSupply env decimals).
  destruct (fetchTotalSupply env decimals) as [totalSupply|]; [|reflexivity].
  change (provider_getBlockNumber (withAxios env get))
    with (provider_getBlockNumber env).
  destruct (provider_getBlockNumber env) as [endBlock|]; [|reflexivity].
  rewrite !scanLogs_windows. cbn [holders]. rewrite fetched_withAxios.
  reflexivity.
Qed.

(** X12. The market-cap request decides nothing but the [marketCap] field:
    with any other answer of the HTTP client, failure included,
    [getTokenStats] resolves with [null] in the same cases, and with a
    response that has the same statistics, total supply, proportion and top
    holders. *)
Theorem market_cap_only_sets_marketCap env get tokenSymbol tokenAddress
    startBlock decimals :
  match getTokenStats env tokenSymbol tokenAddress startBlock decimals,
        getTokenStats (withAxios env get) tokenSymbol tokenAddress
          startBlock decimals with
  | Ok None, Ok None => True
  | Ok (Some r), Ok (Some r') =>
      TokenStatsResponse.stats r' = TokenStatsResponse.stats r /\
      TokenStatsResponse.tokenStats r'
      = {| TokenStats.totalSupply :=
             TokenStats.totalSupply (TokenStatsResponse.tokenStats r);
           TokenStats.marketCap :=
             fetchMarketCap (withAxios env get) tokenSymbol;
           TokenStats.topHoldersProportion :=
             TokenStats.topHoldersProportion (TokenStatsResponse.tokenStats r);
           TokenStats.topHolders :=
             TokenStats.topHolders (TokenStatsResponse.tokenStats r) |}
  | _, _ => False
  end.
Proof.
  unfold getTokenStats, getTokenStatsBy, getTokenStatsBody.
  rewrite fetchHoldersBy_withAxios.
  destruct (fetchHoldersBy batchSize env tokenAddress startBlock decimals)
    as [hs|]; [|exact I].
  unfold assemble.
  destruct (calculateStats _) as [stats|]; simpl; [|exact I].
  split; reflexivity.
Qed.

(** ** [getCurrentHolders] *)

(** Its loop replays the events of all the windows, or fails with the first
    query that fails. *)
Lemma countLoop_windows env d b e f st :
  countLoop env d b e f st
  = match fetchedAll env (windows b f e) (trace st) with
    | Ok events =>
        Ok {| holders := replay d events (holders st);
              trace := (trace st
                        ++ map (fun w => QueryFilter (fst w) (snd w))
                             (windows b f e))%list |}
    | Throw err => Throw err
    end.
Proof.
  funelim (countLoop env d b e f st).
  - rewrite windows_nil by assumption. simpl. rewrite app_nil_r.
    destruct st; reflexivity.
  - rewrite H, (windows_cons _ fromBlock) by assumption.
    clear H Heqcall Heq0. unfold countWindow in Heq.
    cbn [fetchedAll fst snd map].
    destruct (contract_queryFilter env (trace st) fromBlock _)
      as [events|err]; [|discriminate Heq]. cbn [bind].
    assert (E : st' = {| holders := replay decimals events (holders st);
                         trace := (trace st
                                   ++ [QueryFilter fromBlock
                                         (Z.min (fromBlock + Z.pos batchSize0 - 1)
                                            endBlock)])%list |}).
    { destruct events; injection Heq as <-; reflexivity. }
    subst st'. cbn [holders trace].
    destruct (fetchedAll env _ _) as [rest|err]; cbn [bind]; [|reflexivity].
    unfold replay. rewrite fold_left_app, <- app_assoc. reflexivity.
  - rewrite (windows_cons _ fromBlock) by assumption.
    unfold countWindow in Heq. cbn [fetchedAll fst snd].
    destruct (contract_queryFilter env (trace st) fromBlock _)
      as [events|err]; [destruct events; discriminate Heq|].
    injection Heq as <-. reflexivity.
Qed.

Lemma fetchedAll_faithful env chain ws :
  Faithful env chain ->
  forall tr,
    fetchedAll env ws tr
    = Ok (flat_map (fun w => logsIn chain (fst w) (snd w)) ws).
Proof.
  intro H. induction ws as [|w ws IH]; intro tr; simpl; [reflexivity|].
  rewrite H, IH. reflexivity.
Qed.

Lemma fetchedAll_fails env ws w err :
  In w ws ->
  (forall before,
     contract_queryFilter env before (fst w) (snd w) = Throw err) ->
  forall tr, exists err', fetchedAll env ws tr = Throw err'.
Proof.
  intros Hin Hw. induction ws as [|w' ws IH]; intro tr; [destruct Hin|].
  simpl. destruct Hin as [->|Hin].
  - rewrite Hw. simpl. eauto.
  - destruct (contract_queryFilter env tr (fst w') (snd w')); simpl; [|eauto].
    destruct (IH Hin (tr ++ [QueryFilter (fst w') (snd w')])%list)
      as [err' ->].
    simpl. eauto.
Qed.

Lemma count_above_filterHolders ledger :
  List.length (filter (fun balance => Qgtb balance (1 # 100)) (map snd ledger))
  = List.length (filterHolders ledger).
Proof.
  unfold filterHolders. rewrite sortDesc_length.
  induction ledger as [|[a b] l IH]; simpl; [reflexivity|].
  unfold minBalanceThreshold in *.
  destruct (Qgtb b (1 # 100)); simpl; rewrite IH; reflexivity.
Qed.

(** X13. With a provider that answers every query with the logs of the
    chain, valid arguments and a scan that starts after block 0, the count
    of [getCurrentHolders] is the number of wallets of the report of
    [getTokenStats], although the two scan with windows of different
    sizes. *)
Theorem getCurrentHolders_agrees env chain tokenSymbol tokenAddress
    startBlock decimals totalSupply endBlock :
  Faithful env chain ->
  tokenAddress <> "" ->
  startBlock <> 0%Z ->
  initProvider env = Ok tt ->
  Contract env tokenAddress = Ok tt ->
  fetchTotalSupply env decimals = Ok totalSupply ->
  provider_getBlockNumber env = Ok endBlock ->
  exists response,
    getTokenStats env tokenSymbol tokenAddress startBlock decimals
    = Ok (Some response) /\
    Stats.totalWallets (TokenStatsResponse.stats response)
    = getCurrentHolders env tokenAddress startBlock decimals.
Proof.
  intros Hf Ha Hs H1 H2 H3 H4.
  destruct (getTokenStatsBy_cases batchSize env tokenSymbol tokenAddress
              startBlock decimals)
    as [E | (totalSupply' & endBlock' & _ & _ & H3' & H4' & E)].
  - unfold getTokenStatsBy, getTokenStatsBody in E.
    rewrite (fetchHoldersBy_success _ _ _ _ _ _ _ H1 H2 H3 H4) in E.
    destruct (assemble_ok env tokenSymbol
                (holdersStats env totalSupply
                   (holders
                      (scanLogs env decimals batchSize startBlock endBlock))))
      as [response E'].
    rewrite E' in E. discriminate E.
  - rewrite H3 in H3'. injection H3' as <-.
    rewrite H4 in H4'. injection H4' as <-.
    destruct (assemble_ok env tokenSymbol
                (holdersStats env totalSupply
                   (holders
                      (scanLogs env decimals batchSize startBlock endBlock))))
      as [response E'].
    exists response. unfold getTokenStats. rewrite E. split; [exact E'|].
    assert (Hr : getTokenStats env tokenSymbol tokenAddress startBlock decimals
                 = Ok (Some response))
      by (unfold getTokenStats; rewrite E; exact E').
    destruct (getTokenStats_inv _ _ _ _ _ _ Hr)
      as (ts & eb & _ & Heb & _ & _ & _ & _ & Hstats).
    rewrite H4 in Heb. injection Heb as <-.
    destruct (calculateStats_inv _ _ Hstats) as (-> & _).
    rewrite length_map.
    rewrite (fetched_faithful env chain _ Hf), logsIn_windows.
    unfold getCurrentHolders, invalidArguments.
    destruct (String.eqb_spec tokenAddress ""); [contradiction|].
    destruct (Z.eqb_spec startBlock 0); [contradiction|]. simpl.
    rewrite H1, H2. unfold countHolders. rewrite H4. cbn [bind].
    rewrite countLoop_windows. cbn [trace holders].
    rewrite (fetchedAll_faithful env chain _ Hf), logsIn_windows. cbn [bind holders].
    rewrite count_above_filterHolders. reflexivity.
Qed.

Lemma getCurrentHolders_agrees_witness :
  exists response,
    getTokenStats Fixture.env "token" "0xT" 1 0 = Ok (Some response) /\
    Stats.totalWallets (TokenStatsResponse.stats response)
    = getCurrentHolders Fixture.env "0xT" 1 0.
Proof.
  apply (getCurrentHolders_agrees Fixture.env Fixture.chain "token" "0xT"
           1 0 1000 2).
  - intros before f t. reflexivity.
  - discriminate.
  - discriminate.
  - reflexivity.
  - reflexivity.
  - reflexivity.
  - reflexivity.
Defined.

(** X14. [getCurrentHolders] answers 0 when the token address is empty,
    when the scan is asked to start at block 0, and when the query of any
    window of the scan fails: unlike [fetchHolders] it drops the whole scan
    for one failed window. *)
Theorem getCurrentHolders_zero env tokenAddress startBlock decimals :
  tokenAddress = "" \/ startBlock = 0%Z \/
  (exists endBlock w err,
     provider_getBlockNumber env = Ok endBlock /\
     In w (windows holdersBatchSize startBlock endBlock) /\
     forall before,
       contract_queryFilter env before (fst w) (snd w) = Throw err) ->
  getCurrentHolders env tokenAddress startBlock decimals = 0%Z.
Proof.
  unfold getCurrentHolders, invalidArguments.
  intros [->|[->|(endBlock & w & err & He & Hin & Hw)]].
  - reflexivity.
  - rewrite orb_true_r. reflexivity.
  - destruct (_ || _); [reflexivity|].
    destruct (initProvider env); [|reflexivity].
    destruct (Contract env tokenAddress); [|reflexivity].
    unfold countHolders. rewrite He. cbn [bind].
    rewrite countLoop_windows. cbn [trace holders].
    destruct (fetchedAll_fails env _ w err Hin Hw []) as [err' ->].
    reflexivity.
Qed.

Lemma getCurrentHolders_zero_witness :
  getCurrentHolders Fixture.env "0xT" 0 0 = 0%Z /\
  getCurrentHolders Limited.env "0xT" 1 0 = 0%Z.
Proof.
  split.
  - apply getCurrentHolders_zero. right. left. reflexivity.
  - apply getCurrentHolders_zero. right. right.
    exists 150000%Z, (1, 150000)%Z, (RateLimited (Some 1%Z)).
    split; [reflexivity|]. split; [left; reflexivity|].
    intro tr. reflexivity.
Defined.

(** ** [fetchWithRetry] *)

Section FetchWithRetryFacts.
Context {T : Type} (post : Z -> Result T) (url : string).

Lemma retryLoop_step maxRetries delay n tr :
  retryLoop post url maxRetries delay n tr
  = if (n <? maxRetries)%Z then
      match post n with
      | Ok data => (Ok data, (tr ++ [Post])%list)
      | Throw (RateLimited retryAfter) =>
          retryLoop post url maxRetries delay (n + 1)
            (tr ++ [Post; Wait (waitTime delay n retryAfter)])%list
      | Throw e => (Throw e, (tr ++ [Post])%list)
      end
    else (Throw (Failure (String.append "Max retries exceeded for " url)), tr).
Proof.
  funelim (retryLoop post url maxRetries delay n tr).
  - destruct (Z.ltb_spec attempts0 maxRetries); [reflexivity | lia].
  - destruct (Z.ltb_spec attempts0 maxRetries); [lia | reflexivity].
Qed.

(** After [n] rate-limited attempts the loop is at the next attempt. *)
Lemma retryLoop_skip maxRetries delay n :
  forall first tr,
    (first + Z.of_nat n <= maxRetries)%Z ->
    (forall i, (first <= i < first + Z.of_nat n)%Z -> isRateLimited (post i)) ->
    retryLoop post url maxRetries delay first tr
    = retryLoop post url maxRetries delay (first + Z.of_nat n)
        (tr ++ attempts post delay first n).
Proof.
  induction n as [|n IH]; intros first tr Hle Hall.
  - simpl. rewrite Z.add_0_r, app_nil_r. reflexivity.
  - rewrite retryLoop_step.
    destruct (Z.ltb_spec first maxRetries); [|lia].
    destruct (Hall first) as [retryAfter E]; [lia|].
    rewrite E. rewrite IH; [| lia | intros i Hi; apply Hall; lia].
    replace (first + 1 + Z.of_nat n)%Z with (first + Z.of_nat (S n))%Z by lia.
    cbn [attempts]. unfold pauseAfter. rewrite E, <- app_assoc. reflexivity.
Qed.

Lemma posts_attempts delay first n :
  posts (attempts post delay first n) = n.
Proof.
  revert first. induction n as [|n IH]; intro first; [reflexivity|].
  unfold posts in *. simpl. rewrite IH. reflexivity.
Qed.

Lemma posts_app tr1 tr2 : posts (tr1 ++ tr2) = (posts tr1 + posts tr2)%nat.
Proof. unfold posts. rewrite filter_app, length_app. reflexivity. Qed.

(** X15. [fetchWithRetry] ends with the first answer that is not a
    rate-limit: the data of a success, or the error of a failure, thrown
    again at once.  Before it, every rate-limited attempt was followed by a
    pause, and no request is made after it. *)
Theorem fetchWithRetry_first_answer maxRetries delay k :
  (0 <= k < maxRetries)%Z ->
  (forall i, (0 <= i < k)%Z -> isRateLimited (post i)) ->
  ~ isRateLimited (post k) ->
  fetchWithRetry post url maxRetries delay
  = (post k, (attempts post delay 0 (Z.to_nat k) ++ [Post])%list) /\
  posts (snd (fetchWithRetry post url maxRetries delay)) = S (Z.to_nat k).
Proof.
  intros Hk Hall Hnot. unfold fetchWithRetry.
  assert (E : retryLoop post url maxRetries delay 0 []
              = (post k, (attempts post delay 0 (Z.to_nat k) ++ [Post])%list)).
  { rewrite (retryLoop_skip maxRetries delay (Z.to_nat k) 0 []);
      [| lia | intros i Hi; apply Hall; lia].
    rewrite Z2Nat.id by lia. simpl (0 + k)%Z. rewrite retryLoop_step.
    destruct (Z.ltb_spec k maxRetries); [|lia].
    destruct (post k) as [data|[retryAfter|message]] eqn:E;
      try reflexivity.
    exfalso. apply Hnot. exists retryAfter. reflexivity. }
  rewrite E. split; [reflexivity|].
  cbn [snd]. rewrite posts_app, posts_attempts.
  change (posts [Post]) with 1%nat. lia.
Qed.

Lemma waited_app tr1 tr2 : waited (tr1 ++ tr2) = (waited tr1 + waited tr2)%Z.
Proof.
  induction tr1 as [|[|ms] tr1 IH]; simpl; [reflexivity | exact IH |].
  rewrite IH. ring.
Qed.

Lemma waited_backoff delay first n :
  (0 <= first)%Z ->
  (forall i, (first <= i < first + Z.of_nat n)%Z ->
             post i = Throw (RateLimited None)) ->
  waited (attempts post delay first n)
  = (delay * 2 ^ first * (2 ^ Z.of_nat n - 1))%Z.
Proof.
  revert first. induction n as [|n IH]; intros first H0 Hall.
  - simpl. ring.
  - cbn [attempts waited]. rewrite IH; [| lia | intros i Hi; apply Hall; lia].
    unfold pauseAfter. rewrite (Hall first) by lia. cbn [waitTime].
    rewrite Nat2Z.inj_succ, !Z.pow_succ_r, Z.pow_add_r by lia.
    change (2 ^ 1)%Z with 2%Z. ring.
Qed.

(** X16. When every attempt is rate-limited, [fetchWithRetry] makes
    [maxRetries] requests, pauses after each of them, the last included, and
    then throws [Max retries exceeded]; when no answer carries a hint the
    pauses double from [delay] on and add up to
    [delay * (2 ^ maxRetries - 1)]. *)
Theorem fetchWithRetry_exhausted maxRetries delay :
  (0 <= maxRetries)%Z ->
  (forall i, (0 <= i < maxRetries)%Z -> isRateLimited (post i)) ->
  fetchWithRetry post url maxRetries delay
  = (Throw (Failure (String.append "Max retries exceeded for " url)),
     attempts post delay 0 (Z.to_nat maxRetries)) /\
  posts (snd (fetchWithRetry post url maxRetries delay)) = Z.to_nat maxRetries /\
  ((forall i, (0 <= i < maxRetries)%Z -> post i = Throw (RateLimited None)) ->
   waited (snd (fetchWithRetry post url maxRetries delay))
   = (delay * (2 ^ maxRetries - 1))%Z).
Proof.
  intros H0 Hall. unfold fetchWithRetry.
  assert (E : retryLoop post url maxRetries delay 0 []
              = (Throw (Failure (String.append "Max retries exceeded for " url)),
                 attempts post delay 0 (Z.to_nat maxRetries))).
  { rewrite (retryLoop_skip maxRetries delay (Z.to_nat maxRetries) 0 []);
      [| lia | intros i Hi; apply Hall; lia].
    rewrite Z2Nat.id by lia. simpl (0 + maxRetries)%Z.
    rewrite retryLoop_step.
    destruct (Z.ltb_spec maxRetries maxRetries); [lia | reflexivity]. }
  rewrite E. cbn [snd]. split; [reflexivity|].
  split; [apply posts_attempts|].
  intro Hnone. rewrite waited_backoff; [| lia | intros i Hi; apply Hnone; lia].
  rewrite Z2Nat.id by lia. change (2 ^ 0)%Z with 1%Z. ring.
Qed.

End FetchWithRetryFacts.

Lemma fetchWithRetry_first_answer_witness :
  fetchWithRetry flaky "https://example.org" 7 1000
  = (Ok "data", [Post; Wait 1000; Post; Wait 2000; Post]).
Proof.
  destruct (fetchWithRetry_first_answer flaky "https://example.org" 7 1000 2)
    as [E _].
  - lia.
  - intros i Hi. exists None. unfold flaky.
    destruct (Z.ltb_spec i 2); [reflexivity | lia].
  - intros [retryAfter E]. discriminate E.
  - exact E.
Defined.

Lemma fetchWithRetry_exhausted_witness :
  posts (snd (fetchWithRetry busy "https://example.org" 7 1000)) = 7%nat /\
  waited (snd (fetchWithRetry busy "https://example.org" 7 1000)) = 127000%Z.
Proof.
  destruct (fetchWithRetry_exhausted busy "https://example.org" 7 1000)
    as (_ & Hposts & Hwait).
  - lia.
  - intros i Hi. exists None. reflexivity.
  - split; [exact Hposts|]. apply Hwait. intros i Hi. reflexivity.
Defined.

(** ** [getClosestValue] *)

Section ClosestValueFacts.
Variable parseFloat : string -> option Q.

(** The entry [reduce] ends with is an entry of the array and none is
    nearer to the target. *)
Lemma closestEntry_nearest targetTime rest :
  forall first,
    In (closestEntry targetTime first rest) (first :: rest) /\
    forall e, In e (first :: rest) ->
              (distance targetTime (closestEntry targetTime first rest)
               <= distance targetTime e)%Z.
Proof.
  unfold closestEntry, distance.
  induction rest as [|x rest IH]; intro first; simpl.
  - split; [auto|]. intros e [<-|[]]. lia.
  - destruct (IH (closer targetTime first x)) as [Hin Hmin]. split.
    + destruct Hin as [E|Hin]; [|auto].
      rewrite <- E. unfold closer. destruct (_ <? _)%Z; auto.
    + intros e He.
      assert (Hc : (Z.abs (HistoricalTreasury.date (closer targetTime first x)
                           - targetTime)
                    <= Z.abs (HistoricalTreasury.date first - targetTime)
                    /\ Z.abs (HistoricalTreasury.date (closer targetTime first x)
                              - targetTime)
                       <= Z.abs (HistoricalTreasury.date x - targetTime))%Z).
      { unfold closer. destruct (Z.ltb_spec
          (Z.abs (HistoricalTreasury.date x - targetTime))
          (Z.abs (HistoricalTreasury.date first - targetTime))); lia. }
      pose proof (Hmin (closer targetTime first x) (or_introl eq_refl)).
      destruct He as [<-|[<-|He]]; [lia | lia |].
      apply Hmin. right. exact He.
Qed.

(** X17. A value that [getClosestValue] returns is the balance of an entry
    dated at or before the target time, and no entry of the history, past or
    later, is nearer to the target than that entry. *)
Theorem getClosestValue_sound historicalData targetTime value :
  getClosestValue parseFloat historicalData targetTime = Some value ->
  exists entry,
    In entry historicalData /\
    (HistoricalTreasury.date entry <= targetTime)%Z /\
    (forall e, In e historicalData ->
               (distance targetTime entry <= distance targetTime e)%Z) /\
    value = parseFloatOrZero parseFloat (HistoricalTreasury.balance entry).
Proof.
  unfold getClosestValue. destruct historicalData as [|first rest];
    [discriminate|].
  destruct (closestEntry_nearest targetTime rest first) as [Hin Hmin].
  destruct (Z.gtb_spec
              (HistoricalTreasury.date (closestEntry targetTime first rest))
              targetTime); [discriminate|].
  intro Hv. injection Hv as <-.
  exists (closestEntry targetTime first rest). repeat split; auto; lia.
Qed.

(** X18. [getClosestValue] answers [null] for an empty history, and also
    when an entry dated after the target is nearer to it than every entry
    dated at or before it, whatever past entries there are. *)
Theorem getClosestValue_null historicalData targetTime :
  historicalData = [] \/
  (exists later,
     In later historicalData /\
     (targetTime < HistoricalTreasury.date later)%Z /\
     forall e, In e historicalData ->
               (HistoricalTreasury.date e <= targetTime)%Z ->
               (distance targetTime later < distance targetTime e)%Z) ->
  getClosestValue parseFloat historicalData targetTime = None.
Proof.
  intros [->|(later & Hin & Hlater & Hcloser)]; [reflexivity|].
  unfold getClosestValue. destruct historicalData as [|first rest];
    [destruct Hin|].
  destruct (closestEntry_nearest targetTime rest first) as [Hc Hmin].
  destruct (Z.gtb_spec
              (HistoricalTreasury.date (closestEntry targetTime first rest))
              targetTime) as [_|Hpast]; [reflexivity|].
  pose proof (Hcloser _ Hc Hpast). pose proof (Hmin _ Hin). lia.
Qed.

(** X19. When no entry of a history is dated after the target time, the
    answer is the balance of an entry with the latest date of the history. *)
Theorem getClosestValue_latest historicalData targetTime :
  historicalData <> [] ->
  (forall e, In e historicalData ->
             (HistoricalTreasury.date e <= targetTime)%Z) ->
  exists entry,
    In entry historicalData /\
    (forall e, In e historicalData ->
               (HistoricalTreasury.date e <= HistoricalTreasury.date entry)%Z) /\
    getClosestValue parseFloat historicalData targetTime
    = Some (parseFloatOrZero parseFloat (HistoricalTreasury.balance entry)).
Proof.
  intros Hne Hpast. unfold getClosestValue.
  destruct historicalData as [|first rest]; [contradiction|].
  destruct (closestEntry_nearest targetTime rest first) as [Hin Hmin].
  exists (closestEntry targetTime first rest). split; [exact Hin|]. split.
  - intros e He. pose proof (Hmin e He) as Hd. unfold distance in Hd.
    pose proof (Hpast e He). pose proof (Hpast _ Hin). lia.
  - destruct (Z.gtb_spec
                (HistoricalTreasury.date (closestEntry targetTime first rest))
                targetTime) as [Hgt|_]; [|reflexivity].
    pose proof (Hpast _ Hin). lia.
Qed.

End ClosestValueFacts.

Lemma getClosestValue_sound_witness :
  exists entry,
    In entry history /\
    (HistoricalTreasury.date entry <= 150)%Z /\
    (forall e, In e history -> (distance 150 entry <= distance 150 e)%Z) /\
    201 # 2 = parseFloatOrZero parseKnown (HistoricalTreasury.balance entry).
Proof.
  apply (getClosestValue_sound parseKnown history 150 (201 # 2)). reflexivity.
Defined.

Lemma getClosestValue_null_witness :
  getClosestValue parseKnown history 190 = None.
Proof.
  apply getClosestValue_null. right.
  exists {| HistoricalTreasury.date := 200; HistoricalTreasury.balance := "250";
            HistoricalTreasury.assets := "0" |}.
  split; [right; left; reflexivity|]. split; [reflexivity|].
  intros e [<-|[<-|[]]] He; vm_compute in He |- *; [reflexivity|].
  exfalso. apply He. reflexivity.
Defined.

Lemma getClosestValue_latest_witness :
  exists entry,
    In entry history /\
    (forall e, In e history ->
               (HistoricalTreasury.date e <= HistoricalTreasury.date entry)%Z) /\
    getClosestValue parseKnown history 300
    = Some (parseFloatOrZero parseKnown (HistoricalTreasury.balance entry)).
Proof.
  apply (getClosestValue_latest parseKnown history 300).
  - discriminate.
  - intros e [<-|[<-|[]]]; simpl; lia.
Defined.

(** ** [sanitizeName] *)

Lemma lowerChar_alnum c :
  isAlnum c = true ->
  isLowerOrDigit (lowerChar c) = true /\ isUpper (lowerChar c) = false.
Proof.
  unfold isAlnum, isLowerOrDigit, lowerChar, isLower, isUpper, isDigit.
  intro H.
  destruct ((65 <=? nat_of_ascii c)%nat && (nat_of_ascii c <=? 90)%nat) eqn:E.
  - apply andb_true_iff in E. destruct E as [E1 E2].
    apply Nat.leb_le in E1, E2.
    rewrite nat_ascii_embedding by lia.
    split.
    + apply orb_true_iff. left. apply andb_true_iff.
      split; apply Nat.leb_le; lia.
    + apply andb_false_iff. right. apply Nat.leb_gt. lia.
  - split; [|exact E].
    rewrite orb_false_r in H. exact H.
Qed.

Lemma toLowerCase_alnum s :
  allChars isAlnum s = true ->
  allChars isLowerOrDigit (toLowerCase s) = true /\
  String.length (toLowerCase s) = String.length s.
Proof.
  induction s as [|c s IH]; simpl; [auto|].
  intro H. apply andb_true_iff in H. destruct H as [Hc Hs].
  destruct (lowerChar_alnum c Hc) as [-> _]. destruct (IH Hs) as [-> ->].
  auto.
Qed.

Lemma toLowerCase_fixed s :
  allChars isLowerOrDigit s = true ->
  toLowerCase s = s /\ allChars isAlnum s = true.
Proof.
  induction s as [|c s IH]; simpl; [auto|].
  intro H. apply andb_true_iff in H. destruct H as [Hc Hs].
  destruct (IH Hs) as [-> ->].
  unfold isLowerOrDigit in Hc. unfold isAlnum, lowerChar.
  assert (Hu : isUpper c = false).
  { unfold isUpper, isLower, isDigit in *.
    apply andb_false_iff.
    apply orb_true_iff in Hc. destruct Hc as [Hc|Hc];
      apply andb_true_iff in Hc; destruct Hc as [H1 H2];
      apply Nat.leb_le in H1, H2.
    - right. apply Nat.leb_gt. lia.
    - left. apply Nat.leb_gt. lia. }
  rewrite Hu. split; [reflexivity|].
  rewrite orb_false_r. rewrite Hc. reflexivity.
Qed.

(** X20. The key under which the treasury of a DAO is stored and looked
    up, when the name passes [sanitizeName], is as long as the name, is not
    empty and is made of the characters a-z and 0-9 only; it passes
    [sanitizeName] itself and is its own key. *)
Theorem treasuryKey_shape name key :
  treasuryKey name = Some key ->
  key <> "" /\
  String.length key = String.length name /\
  allChars isLowerOrDigit key = true /\
  sanitizeName key = Some key /\
  treasuryKey key = Some key.
Proof.
  intro H. unfold treasuryKey, sanitizeName in H.
  destruct name as [|c name]; [discriminate|].
  destruct (allChars isAlnum (String c name)) eqn:E; [|discriminate].
  injection H as <-.
  destruct (toLowerCase_alnum _ E) as [Hl Hlen].
  destruct (toLowerCase_fixed _ Hl) as [Hfix Hal].
  change (String (lowerChar c) (toLowerCase name))
    with (toLowerCase (String c name)).
  remember (toLowerCase (String c name)) as key eqn:Ek.
  assert (Hne : key <> "") by (subst key; simpl; discriminate).
  assert (Hs : sanitizeName key = Some key).
  { unfold sanitizeName. destruct key; [contradiction|].
    rewrite Hal. reflexivity. }
  split; [exact Hne|]. split; [exact Hlen|]. split; [exact Hl|].
  split; [exact Hs|]. unfold treasuryKey. rewrite Hs, Hfix. reflexivity.
Qed.

Lemma treasuryKey_shape_witness :
  treasuryKey "CryoDAO1" = Some "cryodao1" /\
  sanitizeName "cryodao1" = Some "cryodao1" /\
  sanitizeName "cryo dao" = None /\ sanitizeName "" = None.
Proof.
  split; [reflexivity|]. split; [|split; reflexivity].
  apply (treasuryKey_shape "CryoDAO1" "cryodao1"). reflexivity.
Defined.

(** ** [getAssetsManaged] *)

Section AssetsManagedFacts.
Variable parseFloat : string -> IEEE.number.
Variable ZAPPER_KEY : option string.
Variable zapper_post : string -> string -> Result (option (list string)).

(** X21. A wallet whose portfolio request throws, or whose answer has no
    array of holdings, adds nothing to the total of [getAssetsManaged]: the
    total is the one of the other wallets of the object, taken in the same
    order. *)
Theorem getAssetsManaged_skips_failures wallets1 wallets2 address chain :
  NoDup (map fst (wallets1 ++ (address, chain) :: wallets2)) ->
  (exists err, zapper_post address (networkOf chain) = Throw err)
  \/ zapper_post address (networkOf chain) = Ok None ->
  getAssetsManaged parseFloat ZAPPER_KEY zapper_post
    (wallets1 ++ (address, chain) :: wallets2)
  = getAssetsManaged parseFloat ZAPPER_KEY zapper_post (wallets1 ++ wallets2).
Proof.
  intros _ H. unfold getAssetsManaged.
  destruct (truthyString ZAPPER_KEY); [|reflexivity].
  rewrite !fold_left_app. cbn [fold_left].
  unfold addWallet at 2. cbn [fst snd].
  destruct H as [[err ->] | ->]; reflexivity.
Qed.

End AssetsManagedFacts.

Lemma getAssetsManaged_skips_failures_witness :
  getAssetsManaged parseUsd (Some "key") zapperKnown
    ([("0xa", "eth")] ++ ("0xdown", "base") :: [("0xb", "arb")])
  = getAssetsManaged parseUsd (Some "key") zapperKnown
      ([("0xa", "eth")] ++ [("0xb", "arb")]).
Proof.
  apply (getAssetsManaged_skips_failures parseUsd (Some "key") zapperKnown
           [("0xa", "eth")] [("0xb", "arb")] "0xdown" "base").
  - repeat (constructor; [simpl; intuition discriminate|]). constructor.
  - left. exists (Failure "timeout"). reflexivity.
Defined.

(** ** The empty report and the others *)

(** X22. A report has no wallet exactly when its proportion is the number
    0 and exactly when it has no top holder; a report with wallets has the
    proportion as a string of two decimals. *)
Theorem report_empty_or_printed env tokenSymbol tokenAddress startBlock
    decimals response :
  getTokenStats env tokenSymbol tokenAddress startBlock decimals
  = Ok (Some response) ->
  let tokenStats := TokenStatsResponse.tokenStats response in
  let wallets := Stats.totalWallets (TokenStatsResponse.stats response) in
  (wallets = 0%Z <-> TokenStats.topHoldersProportion tokenStats = Num 0) /\
  (wallets = 0%Z <-> TokenStats.topHolders tokenStats = []) /\
  ((0 < wallets)%Z ->
   exists c, TokenStats.topHoldersProportion tokenStats = Str (toFixed2 c)).
Proof.
  intros H tokenStats wallets.
  destruct (getTokenStats_inv _ _ _ _ _ _ H)
    as (totalSupply & endBlock & _ & _ & _ & _ & Hp & Htop & Hstats).
  subst tokenStats wallets. rewrite Hp, Htop.
  destruct (calculateStats_inv _ _ Hstats) as (-> & _).
  rewrite length_map. unfold holdersStats.
  set (ledger := replay decimals _ []).
  destruct (filterHolders ledger) as [|e l] eqn:E.
  - simpl. repeat split; auto. intro Hlt. inversion Hlt.
  - cbn [List.length firstn map].
    destruct (Z.eqb_spec (Z.of_nat (S (List.length l))) 0) as [E0|_]; [lia|].
    cbn [HoldersStats.topHoldersProportion].
    split; [split; [lia | discriminate]|].
    split; [split; [lia | discriminate]|].
    intros _. eauto.
Qed.

Lemma report_empty_or_printed_witness :
  exists response,
    getTokenStats Dust.env "token" "0xT" 0 3 = Ok (Some response) /\
    (Stats.totalWallets (TokenStatsResponse.stats response) = 0%Z
     <-> TokenStats.topHolders (TokenStatsResponse.tokenStats response) = []).
Proof.
  assert (E : exists response,
             getTokenStats Dust.env "token" "0xT" 0 3 = Ok (Some response))
    by (vm_compute; eauto).
  destruct E as [response E]. exists response. split; [exact E|].
  apply (report_empty_or_printed _ _ _ _ _ _ E).
Defined.

(** ** The two readings of a number agree on the structure of the ledger *)

Lemma scanLoop_windows_binary64 env d b e f st :
  IEEE.scanLoop env d b e f st
  = {| IEEE.holders :=
         IEEE.replay d (fetched env (windows b f e) (IEEE.trace st))
           (IEEE.holders st);
       IEEE.trace := (IEEE.trace st ++ flat_map request (windows b f e))%list |}.
Proof.
  funelim (IEEE.scanLoop env d b e f st).
  - rewrite H, (windows_cons _ fromBlock) by assumption. clear H Heqcall Heq.
    unfold IEEE.scanWindow. simpl.
    destruct (contract_queryFilter env _ fromBlock _) as [events|err]; simpl.
    + unfold IEEE.replay. rewrite fold_left_app, <- !app_assoc. reflexivity.
    + rewrite <- !app_assoc. reflexivity.
  - rewrite windows_nil by assumption. simpl. rewrite app_nil_r.
    destruct st; reflexivity.
Qed.

(** X23. Over binary64 the scan makes the requests of the scan over the
    rationals, one for each window, and its ledger is the replay of the
    events of the windows whose query succeeded; the balances it ends with
    add up to the rounding errors of that replay. *)
Theorem binary64_scan_is_replay env decimals size startBlock endBlock :
  let scan := IEEE.scanLogs env decimals size startBlock endBlock in
  let events := fetched env (windows size startBlock endBlock) [] in
  IEEE.trace scan = trace (scanLogs env decimals size startBlock endBlock) /\
  IEEE.trace scan = flat_map request (windows size startBlock endBlock) /\
  IEEE.holders scan = IEEE.replay decimals events [] /\
  IEEE.total (IEEE.holders scan) == IEEE.drift decimals events [].
Proof.
  intros scan events. subst scan events.
  unfold IEEE.scanLogs. rewrite scanLoop_windows_binary64, scanLogs_windows.
  cbn [IEEE.trace IEEE.holders trace app].
  repeat split. rewrite total_replay. simpl. lra.
Qed.

Lemma has_keys k m : has k m = existsb (String.eqb k) (map fst m).
Proof.
  induction m as [|[k' v] m IH]; simpl; [reflexivity|].
  rewrite IH. destruct (String.eqb k k'); reflexivity.
Qed.

Lemma has_keys_binary64 k m :
  IEEE.has k m = existsb (String.eqb k) (map fst m).
Proof.
  induction m as [|[k' v] m IH]; simpl; [reflexivity|].
  rewrite IH. destruct (String.eqb k k'); reflexivity.
Qed.

Lemma keys_set_binary64 k v m :
  map fst (IEEE.set k v m)
  = if IEEE.has k m then map fst m else (map fst m ++ [k])%list.
Proof.
  induction m as [|[k' v'] m IH]; simpl; [reflexivity|].
  destruct (String.eqb_spec k k') as [->|Hk]; simpl; [reflexivity|].
  rewrite IH. destruct (IEEE.has k m); reflexivity.
Qed.

Lemma keys_transfer_agree f t v v' h h' :
  map fst h = map fst h' ->
  map fst (IEEE.transfer f t v h) = map fst (transfer f t v' h').
Proof.
  intro H. unfold IEEE.transfer, transfer.
  assert (Hset : forall k a a' m m',
             map fst m = map fst m' ->
             map fst (IEEE.set k a m) = map fst (set k a' m')).
  { intros k a a' m m' E.
    rewrite keys_set_binary64, keys_set, has_keys_binary64, has_keys, E.
    reflexivity. }
  assert (Habsent : forall k m m',
             map fst m = map fst m' ->
             map fst (if IEEE.has k m then m else IEEE.set k IEEE.zero m)
             = map fst (if has k m' then m' else set k 0 m')).
  { intros k m m' E. rewrite has_keys_binary64, has_keys, E.
    destruct (existsb _ _); [exact E | apply Hset, E]. }
  apply Hset, Hset, Habsent, Habsent, H.
Qed.

Lemma formatUnits_agree v d :
  match IEEE.formatUnits v d, formatUnits v d with
  | Ok _, Ok _ | Throw _, Throw _ => True
  | _, _ => False
  end.
Proof.
  unfold IEEE.formatUnits, formatUnits.
  destruct (80 <? d)%Z; [exact I|].
  destruct ((v <? - 2 ^ 511)%Z || (2 ^ 511 <=? v)%Z); exact I.
Qed.

(** X24. The ledger over binary64 and the ledger over the rationals hold
    the same addresses in the same order, for every sequence of events:
    which events are applied and where an address is inserted does not
    depend on the arithmetic. *)
Theorem binary64_ledger_same_addresses decimals events :
  map fst (IEEE.replay decimals events []) = map fst (replay decimals events []).
Proof.
  unfold IEEE.replay, replay.
  assert (G : forall h h',
             map fst h = map fst h' ->
             map fst (fold_left (IEEE.applyEvent decimals) events h)
             = map fst (fold_left (applyEvent decimals) events h'));
    [|apply G; reflexivity].
  induction events as [|e events IH]; intros h h' H; simpl; [exact H|].
  apply IH. unfold IEEE.applyEvent, applyEvent.
  destruct e as [tx | from to value tx]; [exact H|].
  destruct (truthyString from); [|exact H].
  destruct (truthyString to); [|exact H].
  destruct (truthyValue value) as [v|]; [|exact H].
  pose proof (formatUnits_agree v decimals) as A.
  destruct (IEEE.formatUnits v decimals), (formatUnits v decimals);
    try contradiction; [|exact H].
  apply keys_transfer_agree, H.
Qed.
